(** * HybridObject: the JSI bridge of react-native-filament

    A shallow embedding of [package/cpp/jsi/RNFHybridObject.h] (the member
    registry and the generated host functions of [margelo::HybridObject]) and
    of [FilamentView.cleanupResources] from
    [package/src/react/FilamentView.tsx], with the properties their
    specification states about them. *)

From Stdlib Require Import Floats.
From stdpp Require Import base option list gmap strings pretty.

(** ** Values of the scripting runtime *)

(** [jsi::Runtime*]: a runtime is known to the bridge by its address only. *)
Abbreviation Runtime := nat.

(** [jsi::Value]. Objects are references into the runtime's heap. *)
Inductive Value : Type :=
| undefined
| null
| boolean (b : bool)
| number (d : float)
| text (s : string)
| object (ref : nat).

(** What a C++ [throw] carries.  [std::runtime_error] is what the header
    itself throws. *)
Inductive exception : Type :=
| runtime_error (what : string)
| TypeConversionError (expected actual : string).

(** Native code returns or throws. *)
Inductive result (A : Type) : Type :=
| Ok (a : A)
| Throw (e : exception).
Arguments Ok {A} a.
Arguments Throw {A} e.

(** A call of a host function returns, throws, or reads [args[slot]] with
    [slot] past the end of the array the caller supplied, which C++ leaves
    undefined. *)
Inductive outcome (A : Type) : Type :=
| Returned (a : A)
| Thrown (e : exception)
| PastEnd (slot : nat).
Arguments Returned {A} a.
Arguments Thrown {A} e.
Arguments PastEnd {A} slot.

Definition lift {A : Type} (r : result A) : outcome A :=
  match r with
  | Ok a => Returned a
  | Throw e => Thrown e
  end.

Definition obind {A B : Type} (o : outcome A) (k : A -> outcome B) : outcome B :=
  match o with
  | Returned a => k a
  | Thrown e => Thrown e
  | PastEnd i => PastEnd i
  end.

(** [JSIConverter<T>] of [RNFJSIConverter.h]: one instance per native type. *)
Class JSIConverter (T : Type) : Type := {
  fromJSI : Runtime -> Value -> result T;
  toJSI : Runtime -> T -> result Value
}.

(** A native type together with its converter. *)
Record jsi_type : Type := JsiType {
  carrier :> Type;
  converter : JSIConverter carrier
}.
Arguments JsiType carrier {converter}.
#[global] Existing Instance converter.

(** [ReturnType] of a converted method: [void] or a native type. *)
Inductive ReturnType : Type :=
| Void
| Returns (T : jsi_type).

Definition ret_carrier (Ret : ReturnType) : Type :=
  match Ret with
  | Void => unit
  | Returns T => carrier T
  end.

(** The values of a parameter pack [Args...]. *)
Fixpoint pack (Args : list jsi_type) : Type :=
  match Args with
  | [] => unit
  | A :: As => (carrier A * pack As)%type
  end.

(** A pointer to a member function taking [Args...], with the receiver
    abstracted: [R] is what the body computes once every argument is there. *)
Fixpoint method_sig (Args : list jsi_type) (R : Type) : Type :=
  match Args with
  | [] => R
  | A :: As => carrier A -> method_sig As R
  end.

Fixpoint invoke {Args : list jsi_type} {R : Type} : method_sig Args R -> pack Args -> R :=
  match Args with
  | [] => fun method _ => method
  | A :: As => fun method converted => invoke (method (fst converted)) (snd converted)
  end.

(** The order in which the arguments of one call are evaluated is not fixed
    by C++; the two orders compilers use are covered. *)
Inductive EvaluationOrder : Type := LeftToRight | RightToLeft.

(** [args[Is]] *)
Definition read (args : list Value) (Is : nat) : outcome Value :=
  match args !! Is with
  | Some v => Returned v
  | None => PastEnd Is
  end.

(** [JSIConverter<std::decay_t<Args>>::fromJSI(runtime, args[Is])...] *)
Fixpoint convertArgs (order : EvaluationOrder) (Args : list jsi_type) (runtime : Runtime)
    (args : list Value) (Is : nat) : outcome (pack Args) :=
  match Args with
  | [] => Returned tt
  | A :: As =>
      let head := obind (read args Is) (fun v => lift (fromJSI runtime v)) in
      let tail := convertArgs order As runtime args (S Is) in
      match order with
      | LeftToRight => obind head (fun a => obind tail (fun rest => Returned (a, rest)))
      | RightToLeft => obind tail (fun rest => obind head (fun a => Returned (a, rest)))
      end
  end.

(** [converted] holds, component by component, what [fromJSI] makes of
    [args[Is]], [args[Is + 1]], ... at the types [Args]. *)
Fixpoint converts (Args : list jsi_type) (runtime : Runtime) (args : list Value) (Is : nat)
    : pack Args -> Prop :=
  match Args with
  | [] => fun _ => True
  | A :: As => fun converted =>
      (exists v, args !! Is = Some v /\ fromJSI runtime v = Ok (fst converted))
      /\ converts As runtime args (S Is) (snd converted)
  end.

(** What a call that supplies fewer arguments than [Args] has parameters can
    come to: no value; a read of a slot the caller never provided; or the
    error of the conversion of an argument the caller did provide. *)
Definition past_the_arguments (Args : list jsi_type) (runtime : Runtime) (args : list Value)
    (r : outcome Value) : Prop :=
  match r with
  | Returned _ => False
  | PastEnd slot => length args <= slot < length Args
  | Thrown e =>
      exists (i : nat) (v : Value) (A : jsi_type),
        args !! i = Some v /\ Args !! i = Some A /\ fromJSI (T := carrier A) runtime v = Throw e
  end.

(** Every argument the caller provided is one its parameter's [fromJSI]
    accepts. *)
Definition acceptable (Args : list jsi_type) (runtime : Runtime) (args : list Value) : Prop :=
  forall (i : nat) (v : Value) (A : jsi_type),
    args !! i = Some v -> Args !! i = Some A ->
    exists a : carrier A, fromJSI runtime v = Ok a.

(** The double quote around the name in the messages of the errors. *)
Definition quote : string := String (Ascii.ascii_of_nat 34) EmptyString.

(** [std::unordered_map::count]: 1 when the key is there, 0 when not. *)
Definition count {A : Type} (m : gmap string A) (name : string) : nat :=
  match m !! name with
  | Some _ => 1
  | None => 0
  end.

Section HybridObject.

(** The fields of the derived class: what a native method reads and writes
    through [this]. *)
Context {Derived : Type}.
Variable order : EvaluationOrder.

(** A native method runs on the object and returns or throws. *)
Definition native (A : Type) : Type := Derived -> Derived * result A.

(** A host function runs on the object as well. *)
Definition M (A : Type) : Type := Derived -> Derived * outcome A.

Definition ret {A : Type} (a : A) : M A := fun obj => (obj, Returned a).

Definition bind {A B : Type} (m : M A) (k : A -> M B) : M B :=
  fun obj =>
    match m obj with
    | (obj', Returned a) => k a obj'
    | (obj', Thrown e) => (obj', Thrown e)
    | (obj', PastEnd i) => (obj', PastEnd i)
    end.

Definition pure_ {A : Type} (o : outcome A) : M A := fun obj => (obj, o).

Local Notation "x <- m ;; k" := (bind m (fun x => k))
  (at level 100, m at next level, right associativity, only parsing).

Definition call {A : Type} (body : native A) : M A :=
  fun obj => let (obj', r) := body obj in (obj', lift r).

(** [jsi::HostFunctionType] *)
Definition HostFunctionType : Type := Runtime -> Value -> list Value -> nat -> M Value.

(** A pointer to member function, by the branch of [if constexpr] its
    [ReturnType] selects: [jsi::Value] (the signature then has to be that
    of a host function) or anything else. *)
Inductive Method : Type :=
| JsiMethod (method : HostFunctionType)
| NativeMethod (Args : list jsi_type) (Ret : ReturnType)
    (method : method_sig Args (native (ret_carrier Ret))).

(** [sizeof...(Args)]; a method that returns [jsi::Value] has the four
    parameters of a host function. *)
Definition parameters (m : Method) : nat :=
  match m with
  | JsiMethod _ => 4
  | NativeMethod Args _ _ => length Args
  end.

Definition callMethod (Args : list jsi_type) (Ret : ReturnType)
    (method : method_sig Args (native (ret_carrier Ret)))
    (runtime : Runtime) (args : list Value) : M Value :=
  match Ret return method_sig Args (native (ret_carrier Ret)) -> M Value with
  | Void => fun method =>
      (* It's a void method. *)
      converted <- pure_ (convertArgs order Args runtime args 0) ;;
      _ <- call (invoke method converted) ;;
      ret undefined
  | Returns T => fun method =>
      (* It's returning some C++ type, converted to a JSI value. *)
      converted <- pure_ (convertArgs order Args runtime args 0) ;;
      result <- call (invoke method converted) ;;
      pure_ (lift (toJSI runtime result))
  end method.

Definition createHybridMethod (m : Method) : HostFunctionType :=
  fun runtime thisVal args count =>
    match m with
    | JsiMethod method => method runtime thisVal args count
    | NativeMethod Args Ret method => callMethod Args Ret method runtime args
    end.

Record HybridFunction : Type := {
  function : HostFunctionType;
  parameterCount : nat
}.

(** [jsi::Function], as [jsi::Function::createFromHostFunction] makes it:
    bound to the runtime it was created in. *)
Record Function : Type := {
  fn_runtime : Runtime;
  fn_name : string;
  fn_paramCount : nat;
  fn_host : HostFunctionType
}.

Record HybridObject : Type := {
  _didLoadMethods : bool;
  _methods : gmap string HybridFunction;
  _getters : gmap string HostFunctionType;
  _setters : gmap string HostFunctionType;
  _functionCache : gmap Runtime (gmap string Function);
  _creationRuntime : option Runtime
}.

(** The members as the header initialises them. *)
Definition constructed : HybridObject := {|
  _didLoadMethods := false;
  _methods := ∅;
  _getters := ∅;
  _setters := ∅;
  _functionCache := ∅;
  _creationRuntime := None
|}.

Definition with_methods (self : HybridObject) (m : gmap string HybridFunction) : HybridObject := {|
  _didLoadMethods := _didLoadMethods self;
  _methods := m;
  _getters := _getters self;
  _setters := _setters self;
  _functionCache := _functionCache self;
  _creationRuntime := _creationRuntime self
|}.

Definition with_getters (self : HybridObject) (m : gmap string HostFunctionType) : HybridObject := {|
  _didLoadMethods := _didLoadMethods self;
  _methods := _methods self;
  _getters := m;
  _setters := _setters self;
  _functionCache := _functionCache self;
  _creationRuntime := _creationRuntime self
|}.

Definition with_setters (self : HybridObject) (m : gmap string HostFunctionType) : HybridObject := {|
  _didLoadMethods := _didLoadMethods self;
  _methods := _methods self;
  _getters := _getters self;
  _setters := m;
  _functionCache := _functionCache self;
  _creationRuntime := _creationRuntime self
|}.

Definition property_exists (kind name : string) : string :=
  "Cannot add Hybrid " +:+ kind +:+ " " +:+ quote +:+ name +:+ quote
    +:+ " - a property with that name already exists!".
Definition method_exists (kind name : string) : string :=
  "Cannot add Hybrid " +:+ kind +:+ " " +:+ quote +:+ name +:+ quote
    +:+ " - a method with that name already exists!".
Definition getter_exists (name : string) : string :=
  "Cannot add Hybrid Property Getter " +:+ quote +:+ name +:+ quote
    +:+ " - a getter with that name already exists!".
Definition setter_exists (name : string) : string :=
  "Cannot add Hybrid Property Setter " +:+ quote +:+ name +:+ quote
    +:+ " - a setter with that name already exists!".

(** A declaration works on the object in place: it gives the object as it
    leaves it, and whether it returned or threw. *)
Definition registerHybridMethod (name : string) (method : Method) (override : bool)
    (self : HybridObject) : HybridObject * result unit :=
  if negb override && ((0 <? count (_getters self) name) || (0 <? count (_setters self) name)) then
    (self, Throw (runtime_error (property_exists "Method" name)))
  else if negb override && (0 <? count (_methods self) name) then
    (self, Throw (runtime_error (method_exists "Method" name)))
  else
    (with_methods self
       (<[name := {| function := createHybridMethod method;
                     parameterCount := parameters method |}]> (_methods self)),
     Ok tt).

Definition registerHybridGetter (name : string) (Ret : ReturnType)
    (method : native (ret_carrier Ret)) (self : HybridObject) : HybridObject * result unit :=
  if 0 <? count (_getters self) name then
    (self, Throw (runtime_error (getter_exists name)))
  else if 0 <? count (_methods self) name then
    (self, Throw (runtime_error (method_exists "Property Getter" name)))
  else
    (with_getters self
       (<[name := createHybridMethod (NativeMethod [] Ret method)]> (_getters self)),
     Ok tt).

Definition registerHybridSetter (name : string) (ValueType : jsi_type)
    (method : carrier ValueType -> native unit) (self : HybridObject) : HybridObject * result unit :=
  if 0 <? count (_setters self) name then
    (self, Throw (runtime_error (setter_exists name)))
  else if 0 <? count (_methods self) name then
    (self, Throw (runtime_error (method_exists "Property Setter" name)))
  else
    (with_setters self
       (<[name := createHybridMethod (NativeMethod [ValueType] Void method)]> (_setters self)),
     Ok tt).

End HybridObject.

(** ** Declarations, uniformly *)

Inductive Kind : Type := KMethod | KGetter | KSetter.

Section Declarations.

Context {Derived : Type}.
Variable order : EvaluationOrder.

(** One call of [registerHybridMethod], [registerHybridGetter] or
    [registerHybridSetter], with its arguments. *)
Inductive Declaration : Type :=
| DeclareMethod (method : @Method Derived) (override : bool)
| DeclareGetter (Ret : ReturnType) (method : @native Derived (ret_carrier Ret))
| DeclareSetter (ValueType : jsi_type) (method : carrier ValueType -> @native Derived unit).

Definition kind (d : Declaration) : Kind :=
  match d with
  | DeclareMethod _ _ => KMethod
  | DeclareGetter _ _ => KGetter
  | DeclareSetter _ _ => KSetter
  end.

Definition overrides (d : Declaration) : bool :=
  match d with
  | DeclareMethod _ override => override
  | _ => false
  end.

Definition declare (name : string) (d : Declaration) (self : HybridObject) : HybridObject * result unit :=
  match d with
  | DeclareMethod method override => registerHybridMethod order name method override self
  | DeclareGetter Ret method => registerHybridGetter order name Ret method self
  | DeclareSetter ValueType method => registerHybridSetter order name ValueType method self
  end.

(** What a declaration that returns has done to the map of its kind. *)
Definition inserted (name : string) (d : Declaration) (self self' : HybridObject) : Prop :=
  match d with
  | DeclareMethod method override =>
      _methods self' = <[name := {| function := createHybridMethod order method;
                                    parameterCount := parameters method |}]> (_methods self)
      /\ (if override then True else _methods self !! name = None)
      /\ _getters self' = _getters self /\ _setters self' = _setters self
  | DeclareGetter Ret method =>
      _getters self' = <[name := createHybridMethod order (NativeMethod [] Ret method)]> (_getters self)
      /\ _getters self !! name = None
      /\ _methods self' = _methods self /\ _setters self' = _setters self
  | DeclareSetter ValueType method =>
      _setters self' = <[name := createHybridMethod order (NativeMethod [ValueType] Void method)]> (_setters self)
      /\ _setters self !! name = None
      /\ _methods self' = _methods self /\ _getters self' = _getters self
  end
  /\ _didLoadMethods self' = _didLoadMethods self
  /\ _functionCache self' = _functionCache self
  /\ _creationRuntime self' = _creationRuntime self.

End Declarations.

(** The error of a declaration: the [std::runtime_error] the header throws. *)
Definition NameConflictError (r : result unit) : bool :=
  match r with
  | Throw (runtime_error _) => true
  | _ => false
  end.

(** Two kinds collide unless they are a getter and a setter. *)
Definition collide (k1 k2 : Kind) : bool :=
  match k1, k2 with
  | KGetter, KSetter | KSetter, KGetter => false
  | _, _ => true
  end.

(** The name is in none of the three maps. *)
Definition unused {Derived : Type} (name : string) (self : @HybridObject Derived) : bool :=
  (count (_methods self) name =? 0) && (count (_getters self) name =? 0)
    && (count (_setters self) name =? 0).

(** ** A body of [loadHybridMethods] *)

Section Loading.

Context {Derived : Type}.
Variable order : EvaluationOrder.

(** The declarations a [loadHybridMethods] makes, one call after the other
    as in the example of the header; the first one that throws ends it. *)
Fixpoint declareAll (declarations : list (string * @Declaration Derived))
    (self : HybridObject) : HybridObject * result unit :=
  match declarations with
  | [] => (self, Ok tt)
  | (name, d) :: rest =>
      match declare order name d self with
      | (self', Ok _) => declareAll rest self'
      | (self', Throw e) => (self', Throw e)
      end
  end.

(** No name is a method and a getter or setter at once. *)
Definition separated (self : @HybridObject Derived) : Prop :=
  forall name, 0 < count (_methods self) name ->
               count (_getters self) name = 0 /\ count (_setters self) name = 0.

End Loading.

(** ** A sample object *)

(** Modelled from the spec: two converters of the Type Conversion Protocol
    ([RNFJSIConverter.h] is not among the sources): [fromJSI] fails with
    [TypeConversionError] when the value's runtime type is not the expected
    one. *)
Definition typeof (v : Value) : string :=
  match v with
  | undefined => "undefined"
  | null => "null"
  | boolean _ => "boolean"
  | number _ => "number"
  | text _ => "string"
  | object _ => "object"
  end.

#[global] Instance string_converter : JSIConverter string := {|
  fromJSI _ v := match v with text s => Ok s | _ => Throw (TypeConversionError "string" (typeof v)) end;
  toJSI _ s := Ok (text s)
|}.

#[global] Instance bool_converter : JSIConverter bool := {|
  fromJSI _ v := match v with boolean b => Ok b | _ => Throw (TypeConversionError "boolean" (typeof v)) end;
  toJSI _ b := Ok (boolean b)
|}.

Definition std_string : jsi_type := JsiType string.
Definition cpp_bool : jsi_type := JsiType bool.

(** The [User] of the header's example, with a name to read and write. *)
Record User : Type := { userName : string; renamed : nat }.

Definition getName : @native User string :=
  fun this => (this, Ok (userName this)).

Definition setName (newName : string) : @native User unit :=
  fun this => ({| userName := newName; renamed := S (renamed this) |}, Ok tt).

(** [std::string User::greet(std::string greeting, bool shout)] *)
Definition greet (greeting : string) (shout : bool) : @native User string :=
  fun this => (this, Ok (greeting +:+ " " +:+ userName this +:+ (if shout then "!" else "."))).

(** [jsi::Value User::argumentCount(jsi::Runtime&, const jsi::Value&, const jsi::Value*, size_t)] *)
Definition argumentCount : @HostFunctionType User :=
  fun runtime thisVal args count => fun this => (this, Returned (boolean (count =? length args))).

(** [void User::rename(std::string newName)], which refuses the empty name
    after it has counted the attempt. *)
Definition rename (newName : string) : @native User unit :=
  fun this =>
    let counted := {| userName := userName this; renamed := S (renamed this) |} in
    if String.eqb newName EmptyString
    then (counted, Throw (runtime_error "A user needs a name"))
    else ({| userName := newName; renamed := S (renamed this) |}, Ok tt).

Definition bob : User := {| userName := "Bob"; renamed := 0 |}.

(** ** The per-runtime cache of functions *)

Section Cache.

Context {Derived : Type}.

Definition with_functionCache (self : @HybridObject Derived)
    (cache : gmap Runtime (gmap string Function)) : HybridObject := {|
  _didLoadMethods := _didLoadMethods self;
  _methods := _methods self;
  _getters := _getters self;
  _setters := _setters self;
  _functionCache := cache;
  _creationRuntime := _creationRuntime self
|}.

(** What [_functionCache] holds for a runtime and a name. *)
Definition cached (runtime : Runtime) (name : string) (self : @HybridObject Derived)
    : option Function :=
  _functionCache self !! runtime ≫= (.!! name).

(** How a lookup in the cache ended. *)
Inductive Lookup : Type :=
| Hit (callable : @Function Derived)
| Created (callable : @Function Derived)
| NoMethod.

Definition callable_of (l : Lookup) : option Function :=
  match l with
  | Hit callable | Created callable => Some callable
  | NoMethod => None
  end.

(** Modelled from the spec: [getOrCreate] of the Per-Runtime Callable Cache.
    [HybridObject::get], the one user of [_functionCache], is defined outside
    the header and is not among the sources. A callable that is there for the
    runtime identity and the name is reused; one that is absent is built
    around the handler of the method's descriptor, bound to the runtime, and
    stored in the map of the runtime under the name. *)
Definition getOrCreate (runtime : Runtime) (name : string) (self : @HybridObject Derived)
    : HybridObject * Lookup :=
  let functionCache := default ∅ (_functionCache self !! runtime) in
  match functionCache !! name with
  | Some callable => (self, Hit callable)
  | None =>
      match _methods self !! name with
      | Some hybridFunction =>
          let callable := {| fn_runtime := runtime;
                             fn_name := name;
                             fn_paramCount := parameterCount hybridFunction;
                             fn_host := function hybridFunction |} in
          (with_functionCache self
             (<[runtime := <[name := callable]> functionCache]> (_functionCache self)),
           Created callable)
      | None => (self, NoMethod)
      end
  end.

(** A sequence of lookups, one after the other, on one object: the object
    at the end, and the keys for which a callable was created, in order. *)
Fixpoint lookups (keys : list (Runtime * string)) (self : @HybridObject Derived)
    : HybridObject * list (Runtime * string) :=
  match keys with
  | [] => (self, [])
  | (runtime, name) :: rest =>
      let (self', l) := getOrCreate runtime name self in
      let (self'', created) := lookups rest self' in
      (self'', match l with Created _ => (runtime, name) :: created | _ => created end)
  end.

(** Every callable in the cache is bound to the runtime it is stored under. *)
Definition bound (self : @HybridObject Derived) : Prop :=
  forall runtime name callable,
    cached runtime name self = Some callable -> fn_runtime callable = runtime.

End Cache.

(** ** The first use of an object by several threads *)

Module FirstUse.

(** Where a thread is in an operation of the object (read, write or
    enumerate). *)
Inductive Position : Type :=
| Outside       (* in no operation *)
| Blocked       (* in an operation, waiting for the mutex *)
| Checking      (* holds the mutex, about to test the flag *)
| Declaring     (* holds the mutex, has called the hook *)
| Operating.    (* holds the mutex, the members are declared *)

Record Shared : Type := {
  _mutex : option nat;          (* the thread that holds it *)
  _didLoadMethods : bool;       (* set when the hook has completed *)
  hookCalls : nat;              (* how often [loadHybridMethods] was called *)
  completed : nat;              (* operations that have returned *)
  threads : list Position
}.

(** The members as the header initialises them, and [n] threads that have
    not touched the object. *)
Definition fresh (n : nat) : Shared := {|
  _mutex := None;
  _didLoadMethods := false;
  hookCalls := 0;
  completed := 0;
  threads := replicate n Outside
|}.

Definition move (t : nat) (p : Position) (s : Shared) : list Position :=
  <[t := p]> (threads s).

(** Modelled from the spec: the first-use trigger ([ensureInitialized] and
    the three operations that call it are defined outside the header and are
    not among the sources). An operation takes the mutex, runs the hook if
    the flag is not set and sets the flag when the hook has completed, then
    does its work and gives the mutex back; a thread that finds the mutex
    taken waits. [step t s] is the next step of thread [t], if it has one. *)
Definition step (t : nat) (s : Shared) : option Shared :=
  match threads s !! t with
  | Some Outside =>
      Some {| _mutex := _mutex s; _didLoadMethods := _didLoadMethods s; hookCalls := hookCalls s;
              completed := completed s; threads := move t Blocked s |}
  | Some Blocked =>
      match _mutex s with
      | None =>
          Some {| _mutex := Some t; _didLoadMethods := _didLoadMethods s; hookCalls := hookCalls s;
                  completed := completed s; threads := move t Checking s |}
      | Some _ => None
      end
  | Some Checking =>
      if _didLoadMethods s then
        Some {| _mutex := _mutex s; _didLoadMethods := true; hookCalls := hookCalls s;
                completed := completed s; threads := move t Operating s |}
      else
        Some {| _mutex := _mutex s; _didLoadMethods := false; hookCalls := S (hookCalls s);
                completed := completed s; threads := move t Declaring s |}
  | Some Declaring =>
      Some {| _mutex := _mutex s; _didLoadMethods := true; hookCalls := hookCalls s;
              completed := completed s; threads := move t Operating s |}
  | Some Operating =>
      Some {| _mutex := None; _didLoadMethods := _didLoadMethods s; hookCalls := hookCalls s;
              completed := S (completed s); threads := move t Outside s |}
  | None => None
  end.

(** The threads take steps in the order of the schedule; a thread that has
    none when its turn comes stays where it is. *)
Fixpoint run (schedule : list nat) (s : Shared) : Shared :=
  match schedule with
  | [] => s
  | t :: rest => run rest (default s (step t s))
  end.

(** A thread at this position holds the mutex. *)
Definition inside (p : Position) : bool :=
  match p with
  | Checking | Declaring | Operating => true
  | Outside | Blocked => false
  end.

(** What holds of the object and its threads at every moment. *)
Record consistent (s : Shared) : Prop := {
  holder : forall t p, threads s !! t = Some p -> inside p = true -> _mutex s = Some t;
  operating : forall t, threads s !! t = Some Operating -> _didLoadMethods s = true;
  declaring : forall t, threads s !! t = Some Declaring ->
                        _didLoadMethods s = false /\ hookCalls s = 1;
  loaded : _didLoadMethods s = true -> hookCalls s = 1;
  unloaded : _didLoadMethods s = false ->
             hookCalls s = 0 \/ exists t, threads s !! t = Some Declaring;
  returned : 0 < completed s -> _didLoadMethods s = true
}.

End FirstUse.

(** ** FilamentView *)

Module FilamentView.

(** What a call leaves behind outside the component. *)
Inductive Effect : Type :=
| LoggerDebug (message : string)
| ChoreographerStop (choreographer : nat)
| ListenerRemove (listener : nat)
| SwapChainRelease (swapChain : nat)
| ViewSetChoreographer (view : nat) (choreographer : option nat).

(** The fields of the component that [cleanupResources] reads or writes;
    [None] is [undefined] (for the context, [null]). *)
Record FilamentView : Type := {
  context : option nat;                   (* the choreographer of the context *)
  renderCallbackListener : option nat;
  swapChain : option nat;
  view : option nat;
  isSurfaceAlive : bool;
  isComponentMounted : bool
}.

(** A call completes or throws an [Error]. *)
Inductive Completion : Type :=
| Completed
| Error (message : string).

Definition getContext (this : FilamentView) : nat + string :=
  match context this with
  | None => inr "Filament component must be used within a FilamentProvider!"
  | Some choreographer => inl choreographer
  end.

(** [x?.f()] *)
Definition optionally (x : option nat) (f : nat -> Effect) : list Effect :=
  match x with
  | Some target => [f target]
  | None => []
  end.

Definition cleanupResources (this : FilamentView) : FilamentView * list Effect * Completion :=
  let log := [LoggerDebug "Cleaning up resources"] in
  match getContext this with
  | inr message => (this, log, Error message)
  | inl choreographer =>
      ({| context := context this;
          renderCallbackListener := renderCallbackListener this;
          swapChain := None;
          view := view this;
          isSurfaceAlive := false;
          isComponentMounted := isComponentMounted this |},
       log ++ [ChoreographerStop choreographer]
           ++ optionally (renderCallbackListener this) ListenerRemove
           ++ optionally (swapChain this) SwapChainRelease
           ++ optionally (view this) (fun v => ViewSetChoreographer v None),
       Completed)
  end.

(** The swap chains a call released, in order. *)
Fixpoint released (effects : list Effect) : list nat :=
  match effects with
  | [] => []
  | SwapChainRelease sc :: rest => sc :: released rest
  | _ :: rest => released rest
  end.

End FilamentView.

(** ** The life of a FilamentView *)

Module Lifecycle.

Import FilamentView.

(** [FilamentProps], as far as the component reads them; a render callback
    is known by its identity. *)
Record Props : Type := {
  enableTransparentRendering : option bool;
  renderCallback : nat
}.

(** The component: the fields [cleanupResources] works on, and the others. *)
Record Component : Type := {
  fields : FilamentView;
  props : Props;
  surfaceCreatedListener : option nat;
  surfaceDestroyedListener : option nat;
  latestToken : nat;
  viewId : nat
}.

(** What a method does outside the component. *)
Inductive Call : Type :=
| Base (e : Effect)
| LoggerDebugValue (message : string) (value : Z)
| LoggerInfo (message : string)
| ChoreographerStart (choreographer : nat)
| SetClearContent (enable : bool)
| CreateSwapChainForSurface (enableTransparentRendering : bool) (swapChain : option nat)
| ReportWorkletError (fatal : bool)
| SetSwapChain (swapChain : nat)
| AddFrameCallbackListener (choreographer listener callback swapChain : nat)
| FindFilamentView (handle : Z)
| AddOnSurfaceCreatedListener (listener : nat)
| AddOnSurfaceDestroyedListener (listener : nat)
| SetSurfaceProvider
| Threw (message : string)
| Rejected (message : string).

(** An [async] method that is waiting at its [await], with what it has
    captured; [Settled] when it has run to its end. *)
Inductive Task : Type :=
| AwaitSwapChain (enableTransparentRendering : bool)
| SwapChainReady (swapChain : option nat)
| AwaitListener (currentToken choreographer callback swapChain : nat)
| ListenerReady (currentToken choreographer listener : nat)
| AwaitView (choreographer : nat) (handle : Z)
| Settled.

(** What one run of a method, from its start or from an [await] to the next
    [await] or the end, comes to: the component after it, the calls it made,
    the [await]s it now waits at, the objects it was handed, and whether it
    completed or threw. *)
Record Reaction : Type := {
  after : Component;
  did : list Call;
  spawned : list Task;
  allocated : nat;
  completion : Completion
}.

Definition with_fields (c : Component) (f : FilamentView) : Component := {|
  fields := f; props := props c;
  surfaceCreatedListener := surfaceCreatedListener c;
  surfaceDestroyedListener := surfaceDestroyedListener c;
  latestToken := latestToken c; viewId := viewId c
|}.

Definition with_props (c : Component) (p : Props) : Component := {|
  fields := fields c; props := p;
  surfaceCreatedListener := surfaceCreatedListener c;
  surfaceDestroyedListener := surfaceDestroyedListener c;
  latestToken := latestToken c; viewId := viewId c
|}.

Definition set_isSurfaceAlive (value : bool) (f : FilamentView) : FilamentView := {|
  context := context f; renderCallbackListener := renderCallbackListener f;
  swapChain := swapChain f; view := view f;
  isSurfaceAlive := value; isComponentMounted := isComponentMounted f
|}.

Definition set_isComponentMounted (value : bool) (f : FilamentView) : FilamentView := {|
  context := context f; renderCallbackListener := renderCallbackListener f;
  swapChain := swapChain f; view := view f;
  isSurfaceAlive := isSurfaceAlive f; isComponentMounted := value
|}.

Definition set_swapChain (value : option nat) (f : FilamentView) : FilamentView := {|
  context := context f; renderCallbackListener := renderCallbackListener f;
  swapChain := value; view := view f;
  isSurfaceAlive := isSurfaceAlive f; isComponentMounted := isComponentMounted f
|}.

Definition set_renderCallbackListener (value : option nat) (f : FilamentView) : FilamentView := {|
  context := context f; renderCallbackListener := value;
  swapChain := swapChain f; view := view f;
  isSurfaceAlive := isSurfaceAlive f; isComponentMounted := isComponentMounted f
|}.

Definition set_view (value : option nat) (f : FilamentView) : FilamentView := {|
  context := context f; renderCallbackListener := renderCallbackListener f;
  swapChain := swapChain f; view := value;
  isSurfaceAlive := isSurfaceAlive f; isComponentMounted := isComponentMounted f
|}.

(** The component as the constructor and the field initialisers leave it. *)
Definition constructed (context : option nat) (props : Props) (viewId : nat) : Component := {|
  fields := {| FilamentView.context := context; renderCallbackListener := None;
               swapChain := None; view := None;
               isSurfaceAlive := true; isComponentMounted := false |};
  props := props;
  surfaceCreatedListener := None;
  surfaceDestroyedListener := None;
  latestToken := 0;
  viewId := viewId
|}.

Definition debug (message : string) : Call := Base (LoggerDebug message).

Definition done_ (c : Component) (calls : list Call) : Reaction :=
  {| after := c; did := calls; spawned := []; allocated := 0; completion := Completed |}.

Definition throw (c : Component) (calls : list Call) (message : string) : Reaction :=
  {| after := c; did := calls; spawned := []; allocated := 0; completion := Error message |}.

(** [get handle()], given what [findNodeHandle(this.ref.current)] returns. *)
Definition handle (nodeHandle : option Z) : Z + string :=
  match nodeHandle with
  | Some tag =>
      if (tag =? -1)%Z
      then inr "Could not get the FilamentView's native view tag! Does the FilamentView exist in the native view-tree?"
      else inl tag
  | None =>
      inr "Could not get the FilamentView's native view tag! Does the FilamentView exist in the native view-tree?"
  end.

Definition updateTransparentRendering (enable : bool) (c : Component) : Reaction :=
  match getContext (fields c) with
  | inr message => throw c [] message
  | inl _ => done_ c [SetClearContent enable]
  end.

(** [updateRenderCallback], up to its [await]. *)
Definition updateRenderCallback (callback swapChain : nat) (c : Component) : Reaction :=
  let currentToken := S (latestToken c) in
  let c := {| fields := fields c; props := props c;
              surfaceCreatedListener := surfaceCreatedListener c;
              surfaceDestroyedListener := surfaceDestroyedListener c;
              latestToken := currentToken; viewId := viewId c |} in
  match getContext (fields c) with
  | inr message => throw c [] message
  | inl choreographer =>
      {| after := c;
         did := map Base (optionally (renderCallbackListener (fields c)) ListenerRemove)
                  ++ [debug "Setting render callback"];
         spawned := [AwaitListener currentToken choreographer callback swapChain];
         allocated := 0;
         completion := Completed |}
  end.

(** The worklet [updateRenderCallback] waits for: it runs on the worklet
    thread and adds the frame callback, for which the choreographer hands out
    the listener [fresh]. *)
Definition addFrameCallbackListener (choreographer callback swapChain fresh : nat) : list Call :=
  [AddFrameCallbackListener choreographer fresh callback swapChain].

(** [updateRenderCallback], from its [await] on, with the listener the
    worklet returned. *)
Definition updateRenderCallback_resumed (currentToken choreographer listener : nat)
    (c : Component) : Reaction :=
  if negb (isComponentMounted (fields c)) || negb (isSurfaceAlive (fields c)) then
    done_ c [debug "🚧 Component is already unmounted or surface is no longer alive, removing choreographer listener";
             Base (ListenerRemove listener)]
  else if negb (currentToken =? latestToken c) then
    done_ c [Base (ListenerRemove listener)]
  else
    done_ (with_fields c (set_renderCallbackListener (Some listener) (fields c)))
      [debug "Render callback set!"; debug "Starting choreographer";
       ChoreographerStart choreographer].

Definition componentDidMount (c : Component) : Reaction :=
  let log := [LoggerDebugValue "Mounting FilamentView" (Z.of_nat (viewId c))] in
  let c := with_fields c (set_isComponentMounted true (fields c)) in
  if negb (default false (enableTransparentRendering (props c))) then
    let r := updateTransparentRendering false c in
    {| after := after r; did := log ++ did r; spawned := spawned r;
       allocated := allocated r; completion := completion r |}
  else done_ c log.

(** [componentDidUpdate(prevProps)]; [this.props] are the new ones. The
    promise of [updateRenderCallback] is not awaited. *)
Definition componentDidUpdate (prevProps : Props) (c : Component) : Reaction :=
  let first :=
    if bool_decide (enableTransparentRendering prevProps <> enableTransparentRendering (props c))
    then updateTransparentRendering (default true (enableTransparentRendering (props c))) c
    else done_ c [] in
  match completion first with
  | Error message => first
  | Completed =>
      match swapChain (fields c) with
      | Some current =>
          if bool_decide (renderCallback prevProps <> renderCallback (props c)) then
            let r := updateRenderCallback (renderCallback (props c)) current c in
            {| after := after r;
               did := did first ++ did r
                        ++ match completion r with
                           | Completed => []
                           | Error message => [Rejected message]
                           end;
               spawned := spawned r; allocated := 0; completion := Completed |}
          else first
      | None => first
      end
  end.

(** A method that ends in [this.cleanupResources()]. *)
Definition then_cleanupResources (c : Component) (calls : list Call) : Reaction :=
  let '(f, effects, completion) := cleanupResources (fields c) in
  {| after := with_fields c f; did := calls ++ map Base effects; spawned := [];
     allocated := 0; completion := completion |}.

Definition componentWillUnmount (c : Component) : Reaction :=
  let log := [LoggerDebugValue "Unmounting FilamentView" (Z.of_nat (viewId c))] in
  let c := with_fields c (set_isComponentMounted false (fields c)) in
  then_cleanupResources c
    (log ++ map Base (optionally (surfaceCreatedListener c) ListenerRemove)
         ++ map Base (optionally (surfaceDestroyedListener c) ListenerRemove)).

Definition onSurfaceDestroyed (c : Component) : Reaction :=
  let c := with_fields c (set_isSurfaceAlive false (fields c)) in
  then_cleanupResources c [LoggerInfo "Surface destroyed!"].

(** [onSurfaceCreated], up to its [await]. *)
Definition onSurfaceCreated (c : Component) : Reaction :=
  let log := [debug "Surface created!"] in
  let c := with_fields c (set_isSurfaceAlive true (fields c)) in
  match getContext (fields c) with
  | inr message => throw c log message
  | inl _ =>
      {| after := c;
         did := log ++ [debug "Creating swap chain"];
         spawned := [AwaitSwapChain (default true (enableTransparentRendering (props c)))];
         allocated := 0;
         completion := Completed |}
  end.

(** The worklet [onSurfaceCreated] waits for. It reads the shared value
    [isSurfaceAlive]; [created] tells whether [createSwapChainForSurface]
    returns the swap chain [fresh] or throws. It gives the task as it is
    then, its calls, and the number of objects created. *)
Definition createSwapChain (enableTransparentRendering created : bool) (fresh : nat)
    (c : Component) : Task * list Call * nat :=
  if negb (isSurfaceAlive (fields c)) then (SwapChainReady None, [], 0)
  else if created then
    (SwapChainReady (Some fresh),
     [CreateSwapChainForSurface enableTransparentRendering (Some fresh)], 1)
  else
    (SwapChainReady None,
     [CreateSwapChainForSurface enableTransparentRendering None; ReportWorkletError false], 0).

(** [onSurfaceCreated], from its [await] on, with what the worklet
    returned. *)
Definition onSurfaceCreated_resumed (result : option nat) (c : Component) : Reaction :=
  match result with
  | None =>
      done_ (with_fields c (set_isSurfaceAlive false (fields c)))
        [LoggerInfo "🚧 Swap chain is null, surface was already destroyed while we tried to create a swapchain from it."]
  | Some created =>
      let c := with_fields c (set_swapChain (Some created) (fields c)) in
      let calls := [debug "Setting swap chain"; SetSwapChain created] in
      let r := updateRenderCallback (renderCallback (props c)) created c in
      {| after := after r; did := calls ++ did r; spawned := spawned r;
         allocated := allocated r; completion := completion r |}
  end.

Definition pause (c : Component) : Reaction :=
  let log := [LoggerInfo "Pausing rendering"] in
  match getContext (fields c) with
  | inr message => throw c log message
  | inl choreographer => done_ c (log ++ [Base (ChoreographerStop choreographer)])
  end.

Definition resume (c : Component) : Reaction :=
  let log := [LoggerInfo "Resuming rendering"] in
  match getContext (fields c) with
  | inr message => throw c log message
  | inl choreographer => done_ c (log ++ [ChoreographerStart choreographer])
  end.

(** [onViewReady], up to its [await]. *)
Definition onViewReady (nodeHandle : option Z) (c : Component) : Reaction :=
  match getContext (fields c) with
  | inr message => throw c [] message
  | inl choreographer =>
      match handle nodeHandle with
      | inr message => throw c [] message
      | inl tag =>
          {| after := c;
             did := [LoggerDebugValue "Finding FilamentView with handle" tag;
                     FindFilamentView tag];
             spawned := [AwaitView choreographer tag];
             allocated := 0;
             completion := Completed |}
      end
  end.

(** [onViewReady], from its [await] on: [found] is what
    [findFilamentView] resolved to, [refCurrent] whether [this.ref.current]
    is set, [surface] whether [getSurface()] is; the two listeners the
    surface provider hands out are [fresh] and [fresh + 1]. The promise of
    [onSurfaceCreated] is not awaited. *)
Definition onViewReady_resumed (choreographer : nat) (tag : Z) (found : option nat)
    (refCurrent surface : bool) (fresh : nat) (c : Component) : Reaction :=
  let c := with_fields c (set_view found (fields c)) in
  match found with
  | None => throw c [] ("Failed to find FilamentView #" +:+ pretty tag +:+ "!")
  | Some theView =>
      if negb (isComponentMounted (fields c)) then
        done_ c [debug "➡️ Component already unmounted, skipping setup"]
      else
        let linked := [debug "Found FilamentView!";
                       Base (ViewSetChoreographer theView (Some choreographer))] in
        if negb refCurrent then throw c linked "Ref is not set!"
        else
          let c := {| fields := fields c; props := props c;
                      surfaceCreatedListener := Some fresh;
                      surfaceDestroyedListener := Some (S fresh);
                      latestToken := latestToken c; viewId := viewId c |} in
          let provided := linked ++ [AddOnSurfaceCreatedListener fresh;
                                     AddOnSurfaceDestroyedListener (S fresh);
                                     debug "Setting surface provider";
                                     SetSurfaceProvider] in
          if surface then
            let r := onSurfaceCreated c in
            {| after := after r;
               did := provided ++ [debug "Surface already created!"] ++ did r
                        ++ match completion r with
                           | Completed => []
                           | Error message => [Rejected message]
                           end;
               spawned := spawned r; allocated := 2; completion := Completed |}
          else
            {| after := c; did := provided; spawned := []; allocated := 2;
               completion := Completed |}
  end.

(** What happens to a component: React and the surface provider call its
    methods, the worklet thread runs a worklet it waits for, and a method
    that waited goes on. A task is named by its place in the list of the
    tasks. *)
Inductive Event : Type :=
| ComponentDidMount
| ComponentDidUpdate (newProps : Props)
| ComponentWillUnmount
| OnViewReady (nodeHandle : option Z)
| OnSurfaceCreated
| OnSurfaceDestroyed
| Pause
| Resume
| SwapChainWorklet (task : nat) (created : bool)
| SurfaceCreatedResumes (task : nat)
| ListenerWorklet (task : nat)
| RenderCallbackResumes (task : nat)
| ViewReadyResumes (task : nat) (found : option nat) (refCurrent surface : bool).

Record World : Type := {
  this : Component;
  tasks : list Task;
  nextId : nat;
  calls : list Call
}.

Definition start (c : Component) : World :=
  {| this := c; tasks := []; nextId := 0; calls := [] |}.

(** The method was called from outside ([sync]: by React, which sees what
    it throws) or is an [async] one nobody awaits. *)
Definition react (sync : bool) (r : Reaction) (w : World) : World := {|
  this := after r;
  tasks := tasks w ++ spawned r;
  nextId := nextId w + allocated r;
  calls := calls w ++ did r
             ++ match completion r with
                | Completed => []
                | Error message => [if sync then Threw message else Rejected message]
                end
|}.

Definition settle (task : nat) (t : Task) (w : World) : World :=
  {| this := this w; tasks := <[task := t]> (tasks w); nextId := nextId w; calls := calls w |}.

Definition step (e : Event) (w : World) : World :=
  match e with
  | ComponentDidMount => react true (componentDidMount (this w)) w
  | ComponentDidUpdate newProps =>
      react true (componentDidUpdate (props (this w)) (with_props (this w) newProps)) w
  | ComponentWillUnmount => react true (componentWillUnmount (this w)) w
  | OnViewReady nodeHandle => react false (onViewReady nodeHandle (this w)) w
  | OnSurfaceCreated => react false (onSurfaceCreated (this w)) w
  | OnSurfaceDestroyed => react true (onSurfaceDestroyed (this w)) w
  | Pause => react true (pause (this w)) w
  | Resume => react true (resume (this w)) w
  | SwapChainWorklet task created =>
      match tasks w !! task with
      | Some (AwaitSwapChain transparent) =>
          let '(t, made, n) := createSwapChain transparent created (nextId w) (this w) in
          {| this := this w; tasks := <[task := t]> (tasks w);
             nextId := nextId w + n; calls := calls w ++ made |}
      | _ => w
      end
  | SurfaceCreatedResumes task =>
      match tasks w !! task with
      | Some (SwapChainReady result) =>
          react false (onSurfaceCreated_resumed result (this w)) (settle task Settled w)
      | _ => w
      end
  | ListenerWorklet task =>
      match tasks w !! task with
      | Some (AwaitListener currentToken choreographer callback swapChain) =>
          {| this := this w;
             tasks := <[task := ListenerReady currentToken choreographer (nextId w)]> (tasks w);
             nextId := S (nextId w);
             calls := calls w ++ addFrameCallbackListener choreographer callback swapChain (nextId w) |}
      | _ => w
      end
  | RenderCallbackResumes task =>
      match tasks w !! task with
      | Some (ListenerReady currentToken choreographer listener) =>
          react false (updateRenderCallback_resumed currentToken choreographer listener (this w))
            (settle task Settled w)
      | _ => w
      end
  | ViewReadyResumes task found refCurrent surface =>
      match tasks w !! task with
      | Some (AwaitView choreographer tag) =>
          react false
            (onViewReady_resumed choreographer tag found refCurrent surface (nextId w) (this w))
            (settle task Settled w)
      | _ => w
      end
  end.

Fixpoint run (events : list Event) (w : World) : World :=
  match events with
  | [] => w
  | e :: rest => run rest (step e w)
  end.

(** What the calls say. *)
Definition bases (calls : list Call) : list Effect :=
  omap (fun call => match call with Base e => Some e | _ => None end) calls.

(** The swap chains released. *)
Definition releasedChains (calls : list Call) : list nat := released (bases calls).

(** The swap chains created. *)
Definition createdChains (calls : list Call) : list nat :=
  omap (fun call => match call with
                    | CreateSwapChainForSurface _ (Some sc) => Some sc
                    | _ => None
                    end) calls.

(** The listeners of frame callbacks added to the choreographer. *)
Definition addedListeners (calls : list Call) : list nat :=
  omap (fun call => match call with
                    | AddFrameCallbackListener _ listener _ _ => Some listener
                    | _ => None
                    end) calls.

(** The listeners removed. *)
Definition removedListeners (calls : list Call) : list nat :=
  omap (fun call => match call with
                    | Base (ListenerRemove listener) => Some listener
                    | _ => None
                    end) calls.

(** The listeners the worklet has returned to a call that has not gone on. *)
Definition returnedListeners (tasks : list Task) : list nat :=
  omap (fun t => match t with ListenerReady _ _ listener => Some listener | _ => None end) tasks.

(** The tokens of the calls of [updateRenderCallback] that wait. *)
Definition waitingTokens (tasks : list Task) : list nat :=
  omap (fun t => match t with
                 | AwaitListener token _ _ _ | ListenerReady token _ _ => Some token
                 | _ => None
                 end) tasks.

(** The swap chains the worklet has returned to a call that has not gone
    on. *)
Definition returnedChains (tasks : list Task) : list nat :=
  omap (fun t => match t with SwapChainReady (Some sc) => Some sc | _ => None end) tasks.

(** The value [setClearContent] was last called with. *)
Definition lastClearContent (calls : list Call) : option bool :=
  last (omap (fun call => match call with SetClearContent enable => Some enable | _ => None end)
          calls).

(** An event that is no call from outside: a worklet runs, or a method
    that waited goes on. *)
Definition internal (e : Event) : bool :=
  match e with
  | SwapChainWorklet _ _ | SurfaceCreatedResumes _ | ListenerWorklet _
  | RenderCallbackResumes _ | ViewReadyResumes _ _ _ _ => true
  | _ => false
  end.

(** A call that sets rendering up. *)
Definition setsUp (call : Call) : bool :=
  match call with
  | ChoreographerStart _ | AddOnSurfaceCreatedListener _ | AddOnSurfaceDestroyedListener _
  | SetSurfaceProvider | Base (ViewSetChoreographer _ (Some _)) => true
  | _ => false
  end.

(** The objects handed to the component: the swap chains created for it
    and the listeners added for it. *)
Definition handedOut (calls : list Call) : list nat :=
  omap (fun call => match call with
                    | CreateSwapChainForSurface _ (Some x)
                    | AddFrameCallbackListener _ x _ _
                    | AddOnSurfaceCreatedListener x
                    | AddOnSurfaceDestroyedListener x => Some x
                    | _ => None
                    end) calls.

(** The swap chains the component has: the one in its field, and those a
    worklet has returned to a call that has not gone on. *)
Definition heldChains (w : World) : list nat :=
  option_list (swapChain (fields (this w))) ++ returnedChains (tasks w).

(** The objects handed out are all different, and older than the next. *)
Record idsFresh (w : World) : Prop := {
  ids_distinct : NoDup (handedOut (calls w));
  ids_known : forall x, x ∈ handedOut (calls w) -> x < nextId w
}.

(** No swap chain the component has was released, and none was released
    twice; all of them were created for it. *)
Record chainsKept (w : World) : Prop := {
  chains_distinct : NoDup (heldChains w ++ releasedChains (calls w));
  chains_created : forall sc, sc ∈ heldChains w ++ releasedChains (calls w) ->
                              sc ∈ createdChains (calls w)
}.

(** A method that leaves the swap chain where it is, or releases it and
    clears the field; it creates none. *)
Definition keepsChain (c : Component) (r : Reaction) : Prop :=
  returnedChains (spawned r) = []
  /\ createdChains (did r) = []
  /\ ((swapChain (fields (after r)) = swapChain (fields c) /\ releasedChains (did r) = [])
      \/ (swapChain (fields (after r)) = None
          /\ releasedChains (did r) = option_list (swapChain (fields c)))).

(** The objects a method is handed are among the [allocated r] ones from
    [fresh] on, each once. *)
Definition allocates (fresh : nat) (r : Reaction) : Prop :=
  NoDup (handedOut (did r))
  /\ forall x, x ∈ handedOut (did r) -> fresh <= x < fresh + allocated r.

(** Every listener of a frame callback is removed, or with a call of
    [updateRenderCallback] that has not gone on, or in the component's field;
    the calls that wait have different tokens, none above the latest; and
    while the latest call waits, the listener in the field is a removed one. *)
Record listenersKept (w : World) : Prop := {
  listeners_accounted :
    forall l, l ∈ addedListeners (calls w) ->
              l ∈ removedListeners (calls w) \/ l ∈ returnedListeners (tasks w)
              \/ renderCallbackListener (fields (this w)) = Some l;
  tokens_bounded :
    forall token, token ∈ waitingTokens (tasks w) -> token <= latestToken (this w);
  tokens_distinct : NoDup (waitingTokens (tasks w));
  latest_waits :
    latestToken (this w) ∈ waitingTokens (tasks w) ->
    forall l, renderCallbackListener (fields (this w)) = Some l ->
              l ∈ removedListeners (calls w)
}.

(** A method that does not touch the listener in the field, and that
    calls [updateRenderCallback] or not: if it does, the token goes up by one
    and, unless there is no context, the listener in the field is removed and
    the call waits with the new token. *)
Definition keepsListener (c : Component) (r : Reaction) : Prop :=
  addedListeners (did r) = []
  /\ returnedListeners (spawned r) = []
  /\ renderCallbackListener (fields (after r)) = renderCallbackListener (fields c)
  /\ ((latestToken (after r) = latestToken c /\ waitingTokens (spawned r) = [])
      \/ (latestToken (after r) = S (latestToken c) /\ waitingTokens (spawned r) = [])
      \/ (latestToken (after r) = S (latestToken c)
          /\ waitingTokens (spawned r) = [S (latestToken c)]
          /\ forall l, renderCallbackListener (fields c) = Some l ->
                       l ∈ removedListeners (did r))).

(** The calls of [setClearContent], by their argument. *)
Definition clearContentCalls (calls : list Call) : list bool :=
  omap (fun call => match call with SetClearContent enable => Some enable | _ => None end) calls.

(** The renderer was told of transparent rendering: when it is off, the
    last it was told is that it is off, and what it was last told is how it
    is now. An [enableTransparentRendering] that is undefined counts as on. *)
Definition transparencyTold (w : World) : Prop :=
  let current := default true (enableTransparentRendering (props (this w))) in
  (current = false -> last (clearContentCalls (calls w)) = Some false)
  /\ (forall told, last (clearContentCalls (calls w)) = Some told -> told = current).

(** A method that says nothing to the renderer of transparent rendering. *)
Definition keepsClearContent (c : Component) (r : Reaction) : Prop :=
  context (fields (after r)) = context (fields c)
  /\ props (after r) = props c
  /\ clearContentCalls (did r) = [].

Definition isMount (e : Event) : bool :=
  match e with
  | ComponentDidMount => true
  | _ => false
  end.

End Lifecycle.

(** A view that is mounted, gets its surface and a swap chain, has its
    render callback changed while the first listener is on its way, loses its
    surface and is unmounted. *)
Definition aLife : list Lifecycle.Event :=
  [Lifecycle.ComponentDidMount;
   Lifecycle.OnViewReady (Some 42%Z);
   Lifecycle.ViewReadyResumes 0 (Some 77) true true;
   Lifecycle.SwapChainWorklet 1 true;
   Lifecycle.SurfaceCreatedResumes 1;
   Lifecycle.ListenerWorklet 2;
   Lifecycle.ComponentDidUpdate
     {| Lifecycle.enableTransparentRendering := Some false; Lifecycle.renderCallback := 101 |};
   Lifecycle.ListenerWorklet 3;
   Lifecycle.RenderCallbackResumes 2;
   Lifecycle.RenderCallbackResumes 3;
   Lifecycle.OnSurfaceDestroyed;
   Lifecycle.ComponentWillUnmount].

Definition aView : Lifecycle.Component :=
  Lifecycle.constructed (Some 9)
    {| Lifecycle.enableTransparentRendering := Some true; Lifecycle.renderCallback := 100 |} 0.

(** * Properties *)

Section Registry.

Context {Derived : Type}.
Variable order : EvaluationOrder.
Implicit Types (self : @HybridObject Derived) (name : string).

Lemma count_zero {A : Type} (m : gmap string A) name :
  (0 <? count m name) = false -> m !! name = None.
Proof. unfold count. by destruct (m !! name). Qed.

(** When does each declaration throw. *)
Lemma registerHybridMethod_conflict name method override self :
  NameConflictError (registerHybridMethod order name method override self).2
  = negb override && ((0 <? count (_getters self) name) || (0 <? count (_setters self) name)
                      || (0 <? count (_methods self) name)).
Proof.
  unfold registerHybridMethod.
  destruct override, (0 <? count (_getters self) name), (0 <? count (_setters self) name),
    (0 <? count (_methods self) name); reflexivity.
Qed.

Lemma registerHybridGetter_conflict name Ret method self :
  NameConflictError (registerHybridGetter order name Ret method self).2
  = (0 <? count (_getters self) name) || (0 <? count (_methods self) name).
Proof.
  unfold registerHybridGetter.
  destruct (0 <? count (_getters self) name), (0 <? count (_methods self) name); reflexivity.
Qed.

Lemma registerHybridSetter_conflict name ValueType method self :
  NameConflictError (registerHybridSetter order name ValueType method self).2
  = (0 <? count (_setters self) name) || (0 <? count (_methods self) name).
Proof.
  unfold registerHybridSetter.
  destruct (0 <? count (_setters self) name), (0 <? count (_methods self) name); reflexivity.
Qed.

(** C9. A declaration ([registerHybridMethod], [registerHybridGetter],
    [registerHybridSetter]) either returns, having put one entry under the
    name into the map of its kind (a name that was not there before, unless a
    method is declared with override) and left the two other maps as they
    were, or it throws the name-conflict error and the object, with its three
    maps, is exactly as before the call. *)
Theorem declaration_atomic name (d : Declaration) self :
  let r := declare order name d self in
  (r.2 = Ok tt /\ inserted order name d self r.1)
  \/ (NameConflictError r.2 = true /\ r.1 = self).
Proof.
  destruct d as [method override|Ret method|V method]; simpl.
  - unfold registerHybridMethod.
    destruct (negb override && _) eqn:E1; [right; done|].
    destruct (negb override && (0 <? _)) eqn:E2; [right; done|].
    left. split; [done|]. repeat split; simpl; try done.
    destruct override; [done|]. simpl in E2. by apply count_zero.
  - unfold registerHybridGetter.
    destruct (0 <? count (_getters self) name) eqn:E1; [right; done|].
    destruct (0 <? count (_methods self) name) eqn:E2; [right; done|].
    left. split; [done|]. repeat split; simpl; try done. by apply count_zero.
  - unfold registerHybridSetter.
    destruct (0 <? count (_setters self) name) eqn:E1; [right; done|].
    destruct (0 <? count (_methods self) name) eqn:E2; [right; done|].
    left. split; [done|]. repeat split; simpl; try done. by apply count_zero.
Qed.

(** C1 (amended). A method declared without override throws the
    name-conflict error exactly when its name is in one of the three maps (a
    method declared with override never does); a getter exactly when its name
    is already a getter or a method; a setter exactly when its name is already
    a setter or a method. So of two declarations of one unused name the second
    throws unless the two are a getter and a setter, whichever comes first. *)
Theorem name_conflict_rules name self :
  (forall method override,
      NameConflictError (registerHybridMethod order name method override self).2
      = negb override && negb (unused name self))
  /\ (forall Ret method,
      NameConflictError (registerHybridGetter order name Ret method self).2
      = (0 <? count (_getters self) name) || (0 <? count (_methods self) name))
  /\ (forall ValueType method,
      NameConflictError (registerHybridSetter order name ValueType method self).2
      = (0 <? count (_setters self) name) || (0 <? count (_methods self) name))
  /\ (forall d1 d2 : Declaration,
      unused name self = true -> overrides d1 = false -> overrides d2 = false ->
      NameConflictError (declare order name d1 self).2 = false
      /\ NameConflictError (declare order name d2 (declare order name d1 self).1).2
         = collide (kind d1) (kind d2)
      /\ NameConflictError (declare order name d1 (declare order name d2 self).1).2
         = collide (kind d1) (kind d2)).
Proof.
  split; [|split; [|split]].
  - intros method override. rewrite registerHybridMethod_conflict. unfold unused, count.
    by destruct override, (_getters self !! name), (_setters self !! name), (_methods self !! name).
  - intros. apply registerHybridGetter_conflict.
  - intros. apply registerHybridSetter_conflict.
  - intros d1 d2 Hun H1 H2. unfold unused, count in Hun.
    destruct (_methods self !! name) eqn:Em; [done|].
    destruct (_getters self !! name) eqn:Eg; [done|].
    destruct (_setters self !! name) eqn:Es; [done|].
    destruct d1 as [m1 o1|R1 m1|V1 m1], d2 as [m2 o2|R2 m2|V2 m2]; simpl in H1, H2; subst; simpl;
      unfold registerHybridMethod, registerHybridGetter, registerHybridSetter, count; simpl;
      rewrite ?Em, ?Eg, ?Es; simpl; rewrite ?lookup_insert_eq, ?Em, ?Eg, ?Es; simpl;
      rewrite ?lookup_insert_eq; done.
Qed.

(** C6 (amended). [registerHybridMethod] with the override flag set never
    throws; afterwards the method map holds, under the name, the host function
    made from the new handler with [parameterCount] the number of its declared
    parameters, in place of any method it held there before, and nothing else
    changed: the getter map, the setter map and the cache of functions are
    what they were. *)
Theorem override_replaces_method name method self :
  let r := registerHybridMethod order name method true self in
  let declared := {| function := createHybridMethod order method;
                     parameterCount := parameters method |} in
  r.2 = Ok tt
  /\ _methods r.1 !! name = Some declared
  /\ _methods r.1 = <[name := declared]> (_methods self)
  /\ _getters r.1 = _getters self
  /\ _setters r.1 = _setters self
  /\ _functionCache r.1 = _functionCache self.
Proof.
  simpl. unfold registerHybridMethod. simpl. repeat split. apply lookup_insert_eq.
Qed.

End Registry.

(** C1, as stated, fails: on an object whose getter map has ["name"], the
    declaration of a setter ["name"] returns, and the name is then in both
    maps. *)
Lemma getter_and_setter_share_a_name :
  let self := (registerHybridGetter LeftToRight "name" (Returns std_string) getName constructed).1 in
  let r := registerHybridSetter LeftToRight "name" std_string setName self in
  count (_getters self) "name" = 1
  /\ r.2 = Ok tt
  /\ count (_getters r.1) "name" = 1 /\ count (_setters r.1) "name" = 1.
Proof. vm_compute. done. Qed.

Lemma name_conflict_rules_witness :
  let getter := DeclareGetter (Returns std_string) getName in
  let method := DeclareMethod (NativeMethod [std_string; cpp_bool] (Returns std_string) greet) false in
  NameConflictError (declare RightToLeft "name" method (declare RightToLeft "name" getter constructed).1).2 = true
  /\ NameConflictError (declare RightToLeft "name" getter (declare RightToLeft "name" method constructed).1).2 = true.
Proof.
  intros getter method.
  destruct (name_conflict_rules RightToLeft "name" (@constructed User)) as (_ & _ & _ & H).
  destruct (H method getter eq_refl eq_refl eq_refl) as (_ & H1 & H2).
  split; [exact H2 | exact H1].
Defined.

(** C6, as stated, fails: a getter declared under ["name"] before the
    overriding call is still in the getter map after it, and still answers. *)
Lemma override_keeps_getter :
  let old := createHybridMethod LeftToRight (NativeMethod [] (Returns std_string) getName) in
  let self := (registerHybridGetter LeftToRight "name" (Returns std_string) getName constructed).1 in
  let r := registerHybridMethod LeftToRight "name"
             (NativeMethod [std_string; cpp_bool] (Returns std_string) greet) true self in
  r.2 = Ok tt
  /\ _getters r.1 !! "name" = Some old
  /\ (exists getter, _getters r.1 !! "name" = Some getter
                     /\ getter 1 undefined [] 0 bob = (bob, Returned (text "Bob"))).
Proof.
  simpl. split; [reflexivity|]. split; [reflexivity|].
  eexists. split; [reflexivity|]. reflexivity.
Qed.

Section HostFunctions.

Context {Derived : Type}.
Variable order : EvaluationOrder.
Implicit Types (self : @HybridObject Derived) (name : string) (obj : Derived).
Implicit Types (runtime : Runtime) (args : list Value) (Args : list jsi_type).

Lemma registered name (m : Method) override self self' :
  registerHybridMethod order name m override self = (self', Ok tt) ->
  _methods self' !! name
  = Some {| function := createHybridMethod order m; parameterCount := parameters m |}.
Proof.
  unfold registerHybridMethod. intros H.
  destruct (negb override && _); [discriminate|].
  destruct (negb override && _); [discriminate|].
  injection H as <-. simpl. apply lookup_insert_eq.
Qed.

Lemma convertArgs_converts Args runtime args Is (converted : pack Args) :
  converts Args runtime args Is converted ->
  convertArgs order Args runtime args Is = Returned converted.
Proof.
  revert Is converted. induction Args as [|A As IH]; intros Is converted; simpl.
  - by destruct converted.
  - intros [(v & Hv & Hc) Ht]. rewrite (IH _ _ Ht). unfold read. rewrite Hv. simpl.
    rewrite Hc. destruct converted. by destruct order.
Qed.

Lemma convertArgs_outcome Args runtime args Is :
  match convertArgs order Args runtime args Is with
  | Returned _ => Args = [] \/ Is + length Args <= length args
  | PastEnd slot => length args <= slot < Is + length Args
  | Thrown e =>
      exists (i : nat) (v : Value) (A : jsi_type),
        args !! (Is + i) = Some v /\ Args !! i = Some A /\ fromJSI (T := carrier A) runtime v = Throw e
  end.
Proof.
  revert Is. induction Args as [|A As IH]; intros Is; simpl; [by left|].
  specialize (IH (S Is)).
  assert (Htail : match convertArgs order As runtime args (S Is) with
                  | Returned _ => True
                  | PastEnd slot => length args <= slot < Is + S (length As)
                  | Thrown e => exists i v A0, args !! (Is + i) = Some v
                      /\ (A :: As) !! i = Some A0 /\ fromJSI (T := carrier A0) runtime v = Throw e
                  end).
  { destruct (convertArgs order As runtime args (S Is)) as [rest|e|slot]; [done| |lia].
    destruct IH as (i & v & A0 & Hv & HA & He). exists (S i), v, A0.
    by replace (Is + S i) with (S Is + i) by lia. }
  unfold read. destruct (args !! Is) as [v|] eqn:Hv; simpl.
  - apply lookup_lt_Some in Hv as Hlt.
    destruct (fromJSI runtime v) as [a|e] eqn:Hc; simpl.
    + destruct order; destruct (convertArgs _ As runtime args (S Is)) as [rest|e|slot]; simpl; try done;
        right; destruct IH as [->|?]; simpl; lia.
    + assert (exists i v0 A0, args !! (Is + i) = Some v0 /\ (A :: As) !! i = Some A0
                /\ fromJSI (T := carrier A0) runtime v0 = Throw e) as Hhead.
      { exists 0, v, A. by replace (Is + 0) with Is by lia. }
      destruct order; destruct (convertArgs _ As runtime args (S Is)) as [rest|e'|slot]; simpl; done.
  - apply lookup_ge_None in Hv.
    destruct order; destruct (convertArgs _ As runtime args (S Is)) as [rest|e'|slot]; simpl;
      try done; lia.
Qed.

(** Only the slots of the parameters are looked at. *)
Lemma convertArgs_slots Args runtime args args' Is :
  (forall i, Is <= i < Is + length Args -> args !! i = args' !! i) ->
  convertArgs order Args runtime args Is = convertArgs order Args runtime args' Is.
Proof.
  revert Is. induction Args as [|A As IH]; intros Is Hsame; simpl; [done|].
  rewrite (IH (S Is)) by (intros i Hi; apply Hsame; simpl; lia).
  unfold read. rewrite (Hsame Is) by (simpl; lia). done.
Qed.

Lemma convertArgs_right_to_left Args runtime args Is :
  order = RightToLeft -> Args <> [] -> length args < Is + length Args ->
  convertArgs order Args runtime args Is = PastEnd (Is + length Args - 1).
Proof.
  intros ->. revert Is. induction Args as [|A As IH]; intros Is Hne Hlen; [done|]. simpl.
  destruct As as [|B Bs].
  - simpl in *. unfold read. rewrite (proj2 (lookup_ge_None args Is)) by lia. simpl.
    f_equal. lia.
  - rewrite IH; [|done|simpl in *; lia]. simpl. f_equal. simpl. lia.
Qed.

Lemma convertArgs_left_to_right Args runtime args Is :
  order = LeftToRight -> Is <= length args < Is + length Args ->
  (forall i v A, args !! (Is + i) = Some v -> Args !! i = Some A ->
                 exists a : carrier A, fromJSI runtime v = Ok a) ->
  convertArgs order Args runtime args Is = PastEnd (length args).
Proof.
  intros ->. revert Is. induction Args as [|A As IH]; intros Is Hlen Hok; simpl in *; [lia|].
  unfold read. destruct (args !! Is) as [v|] eqn:Hv; simpl.
  - apply lookup_lt_Some in Hv as Hlt.
    destruct (Hok 0 v A) as [a Ha]; [by replace (Is + 0) with Is by lia|done|].
    rewrite Ha. simpl. rewrite IH; [done|lia|].
    intros i v' A' Hv' HA'. apply (Hok (S i)); [|done].
    by replace (Is + S i) with (S Is + i) by lia.
  - apply lookup_ge_None in Hv. f_equal. lia.
Qed.

(** C3. A method returning a native type [T], once registered, is called
    from the runtime through a host function that makes the argument of each
    parameter from the slot of its position, [args[i]], with [fromJSI] at the
    parameter's type, calls the method on the object with these in the order
    of the parameters, and returns what [toJSI] makes of the method's result. *)
Theorem callable_converts_and_invokes name Args (T : jsi_type)
    (method : method_sig Args (native (carrier T))) override self self'
    runtime thisVal args count (converted : pack Args) obj obj' (result : carrier T) :
  registerHybridMethod order name (NativeMethod Args (Returns T) method) override self
    = (self', Ok tt) ->
  converts Args runtime args 0 converted ->
  invoke method converted obj = (obj', Ok result) ->
  exists callable : HybridFunction,
    _methods self' !! name = Some callable
    /\ parameterCount callable = length Args
    /\ function callable runtime thisVal args count obj = (obj', lift (toJSI runtime result)).
Proof.
  intros Hreg Hconv Hcall. eexists. split; [exact (registered _ _ _ _ _ Hreg)|].
  split; [done|]. simpl. unfold callMethod, bind, pure_, call.
  rewrite (convertArgs_converts _ _ _ _ _ Hconv). by rewrite Hcall.
Qed.

(** C4. A method returning [void], once registered, is called through a
    host function that returns [undefined] and nothing else, whatever the
    arguments: it does so whenever the arguments convert and the method
    returns. *)
Theorem void_method_returns_undefined name Args
    (method : method_sig Args (native unit)) override self self' :
  registerHybridMethod order name (NativeMethod Args Void method) override self
    = (self', Ok tt) ->
  exists callable : HybridFunction,
    _methods self' !! name = Some callable
    /\ (forall runtime thisVal args count obj (v : Value),
          (function callable runtime thisVal args count obj).2 = Returned v -> v = undefined)
    /\ (forall runtime thisVal args count (converted : pack Args) obj obj',
          converts Args runtime args 0 converted ->
          invoke method converted obj = (obj', Ok tt) ->
          function callable runtime thisVal args count obj = (obj', Returned undefined)).
Proof.
  intros Hreg. eexists. split; [exact (registered _ _ _ _ _ Hreg)|]. simpl. split.
  - intros runtime thisVal args count obj v. unfold callMethod, bind, pure_, call, ret.
    destruct (convertArgs order Args runtime args 0) as [converted|e|slot]; simpl; [|done..].
    destruct (invoke method converted obj) as [obj' [[]|e]]; simpl; [|done].
    by intros [= <-].
  - intros runtime thisVal args count converted obj obj' Hconv Hcall.
    unfold callMethod, bind, pure_, call, ret.
    rewrite (convertArgs_converts _ _ _ _ _ Hconv). by rewrite Hcall.
Qed.

(** C5. A method whose return type is [jsi::Value], once registered, is
    called through a host function that hands the runtime, the this-value, the
    argument array and the argument count to the method as they came and
    returns what the method returns: nothing is converted on the way in or
    out. *)
Theorem jsi_method_passes_through name (method : HostFunctionType) override self self' :
  registerHybridMethod order name (JsiMethod method) override self = (self', Ok tt) ->
  exists callable : HybridFunction,
    _methods self' !! name = Some callable
    /\ forall runtime thisVal args count obj,
         function callable runtime thisVal args count obj = method runtime thisVal args count obj.
Proof.
  intros Hreg. eexists. split; [exact (registered _ _ _ _ _ Hreg)|]. done.
Qed.

(** C8. The host function of a registered method of [n] converted
    parameters never looks at the argument count: the descriptor stores [n],
    but a call has the same outcome under every count, and under every
    argument array with the same slots 0 to [n - 1]. It reads the slots of
    all [n] positions, so a call with fewer than [n] arguments returns no
    value and fails no arity check: it comes to a read of a slot the caller
    never provided (the last one when the arguments are evaluated right to
    left, the first missing one when they are evaluated left to right and the
    arguments provided all convert), unless the conversion of a provided
    argument throws first; the method is not called. *)
Theorem no_arity_check name Args Ret
    (method : method_sig Args (native (ret_carrier Ret))) override self self' :
  registerHybridMethod order name (NativeMethod Args Ret method) override self = (self', Ok tt) ->
  exists callable : HybridFunction,
    _methods self' !! name = Some callable
    /\ parameterCount callable = length Args
    /\ (forall runtime thisVal args args' count count' obj,
          take (length Args) args = take (length Args) args' ->
          function callable runtime thisVal args count obj
          = function callable runtime thisVal args' count' obj)
    /\ (forall runtime thisVal args obj,
          length args < length Args ->
          exists r : outcome Value,
            function callable runtime thisVal args (length args) obj = (obj, r)
            /\ past_the_arguments Args runtime args r
            /\ (order = RightToLeft -> r = PastEnd (length Args - 1))
            /\ (order = LeftToRight -> acceptable Args runtime args -> r = PastEnd (length args))).
Proof.
  intros Hreg. eexists. split; [exact (registered _ _ _ _ _ Hreg)|].
  split; [done|]. split.
  { intros runtime thisVal args args' count count' obj Htake. simpl.
    assert (Hsame : convertArgs order Args runtime args 0 = convertArgs order Args runtime args' 0).
    { apply convertArgs_slots. intros i Hi.
      rewrite <- (lookup_take_lt args (length Args) i) by lia.
      rewrite <- (lookup_take_lt args' (length Args) i) by lia. by rewrite Htake. }
    unfold callMethod. by rewrite Hsame. }
  intros runtime thisVal args obj Hshort. simpl.
  pose proof (convertArgs_outcome Args runtime args 0) as Hout.
  assert (Hrtl : order = RightToLeft ->
                 convertArgs order Args runtime args 0 = PastEnd (length Args - 1)).
  { intros Ho. rewrite (convertArgs_right_to_left Args runtime args 0 Ho); [done| |lia].
    intros ->. simpl in Hshort. lia. }
  assert (Hltr : order = LeftToRight -> acceptable Args runtime args ->
                 convertArgs order Args runtime args 0 = PastEnd (length args)).
  { intros Ho Hacc. apply convertArgs_left_to_right; [done|lia|]. exact Hacc. }
  assert (Hrun : forall o : outcome (pack Args), convertArgs order Args runtime args 0 = o ->
            match o with Returned _ => False | _ => True end ->
            callMethod order Args Ret method runtime args obj
            = (obj, match o with Returned _ => PastEnd 0 | Thrown e => Thrown e
                              | PastEnd slot => PastEnd slot end)).
  { intros o Ho Hne. unfold callMethod, bind, pure_. rewrite Ho.
    by destruct Ret, o. }
  destruct (convertArgs order Args runtime args 0) as [converted|e|slot] eqn:Hc.
  - destruct Hout as [->|Hlen]; simpl in *; lia.
  - exists (Thrown e). rewrite (Hrun _ eq_refl I). split; [done|]. split; [exact Hout|].
    split; [intros Ho; specialize (Hrtl Ho); by simplify_eq
          |intros Ho Hacc; specialize (Hltr Ho Hacc); by simplify_eq].
  - exists (PastEnd slot). rewrite (Hrun _ eq_refl I). split; [done|]. split; [simpl; lia|].
    split; [intros Ho; specialize (Hrtl Ho); by simplify_eq
          |intros Ho Hacc; specialize (Hltr Ho Hacc); by simplify_eq].
Qed.

End HostFunctions.

(** A name written through the setter is the name the getter reads. *)
Example write_then_read :
  let setter := createHybridMethod LeftToRight (NativeMethod [std_string] Void setName) in
  let getter := createHybridMethod LeftToRight (NativeMethod [] (Returns std_string) getName) in
  let written := (setter 1 undefined [text "Alice"] 1 bob).1 in
  (getter 1 undefined [] 0 written).2 = Returned (text "Alice").
Proof. reflexivity. Qed.

(** A string where a boolean is expected: the conversion throws, and the
    method is not called. *)
Example wrong_type :
  createHybridMethod LeftToRight (NativeMethod [std_string; cpp_bool] (Returns std_string) greet)
    1 undefined [text "Hello"; text "loud"] 2 bob
  = (bob, Thrown (TypeConversionError "boolean" "string")).
Proof. reflexivity. Qed.

(** [greet] called from runtime 1 with a string and a boolean. *)
Lemma callable_converts_and_invokes_witness :
  exists callable : HybridFunction,
    _methods (registerHybridMethod LeftToRight "greet"
                (NativeMethod [std_string; cpp_bool] (Returns std_string) greet) false
                constructed).1 !! "greet" = Some callable
    /\ parameterCount callable = 2
    /\ function callable 1 undefined [text "Hello"; boolean true] 2 bob
       = (bob, Returned (text "Hello Bob!")).
Proof.
  apply (callable_converts_and_invokes LeftToRight "greet" [std_string; cpp_bool] std_string
           greet false constructed _ 1 undefined [text "Hello"; boolean true] 2
           ("Hello", (true, tt)) bob bob "Hello Bob!").
  - reflexivity.
  - simpl. repeat split; eexists; split; reflexivity.
  - reflexivity.
Defined.

(** [setName] called with a string: the object is renamed, the runtime gets
    [undefined]. *)
Lemma void_method_returns_undefined_witness :
  exists callable : HybridFunction,
    _methods (registerHybridMethod LeftToRight "setName"
                (NativeMethod [std_string] Void setName) false constructed).1 !! "setName"
      = Some callable
    /\ function callable 1 undefined [text "Alice"] 1 bob
       = ({| userName := "Alice"; renamed := 1 |}, Returned undefined).
Proof.
  destruct (void_method_returns_undefined LeftToRight "setName" [std_string] setName false
              constructed _ eq_refl) as (callable & Hfound & _ & Hcall).
  exists callable. split; [exact Hfound|].
  apply (Hcall 1 undefined [text "Alice"] 1 ("Alice", tt)).
  - simpl. split; [|exact I]. eexists. split; reflexivity.
  - reflexivity.
Defined.

(** [argumentCount] sees the array and the count the caller gave. *)
Lemma jsi_method_passes_through_witness :
  exists callable : HybridFunction,
    _methods (registerHybridMethod RightToLeft "argumentCount"
                (JsiMethod argumentCount) false constructed).1 !! "argumentCount"
      = Some callable
    /\ parameterCount callable = 4
    /\ function callable 1 undefined [null; null] 3 bob = (bob, Returned (boolean false)).
Proof.
  destruct (jsi_method_passes_through RightToLeft "argumentCount" argumentCount false
              constructed _ eq_refl) as (callable & Hfound & Hcall).
  exists callable. split; [exact Hfound|]. split.
  - simpl in Hfound. rewrite lookup_insert_eq in Hfound. by injection Hfound as <-.
  - rewrite Hcall. reflexivity.
Defined.

(** [greet] has two parameters; called with no argument at all it comes to
    a read of [args[1]] when the arguments are evaluated right to left. *)
Lemma no_arity_check_witness :
  exists callable : HybridFunction,
    _methods (registerHybridMethod RightToLeft "greet"
                (NativeMethod [std_string; cpp_bool] (Returns std_string) greet) false
                constructed).1 !! "greet" = Some callable
    /\ parameterCount callable = 2
    /\ function callable 1 undefined [] 0 bob = (bob, PastEnd 1).
Proof.
  destruct (no_arity_check RightToLeft "greet" [std_string; cpp_bool] (Returns std_string)
              greet false constructed _ eq_refl) as (callable & Hfound & Hcount & _ & Hshort).
  exists callable. split; [exact Hfound|]. split; [exact Hcount|].
  destruct (Hshort 1 undefined [] bob) as (r & Hr & _ & Hrtl & _); [simpl; lia|].
  rewrite (Hrtl eq_refl) in Hr. exact Hr.
Defined.

Section FilamentViewProperties.

Import FilamentView.

(** C10. With a context there, [cleanupResources] completes, releases the
    swap chain if there is one and leaves the component with no swap chain
    and the surface marked not alive; called again right away it releases
    nothing and leaves the component as the first call left it. *)
Theorem cleanupResources_twice (this : FilamentView) (choreographer : nat) :
  context this = Some choreographer ->
  let first := cleanupResources this in
  let second := cleanupResources first.1.1 in
  first.2 = Completed
  /\ released first.1.2 = option_list (swapChain this)
  /\ swapChain first.1.1 = None
  /\ isSurfaceAlive first.1.1 = false
  /\ second.2 = Completed
  /\ released second.1.2 = []
  /\ second.1.1 = first.1.1.
Proof.
  intros Hctx. unfold cleanupResources, getContext. rewrite Hctx. simpl.
  rewrite ?Hctx. simpl. repeat split.
  - by destruct (renderCallbackListener this), (swapChain this), (view this).
  - by destruct (renderCallbackListener this), (view this).
Qed.

End FilamentViewProperties.

(** A mounted view with a swap chain: released once, by the first call. *)
Lemma cleanupResources_twice_witness :
  let this := {| FilamentView.context := Some 7;
                 FilamentView.renderCallbackListener := Some 3;
                 FilamentView.swapChain := Some 5;
                 FilamentView.view := Some 2;
                 FilamentView.isSurfaceAlive := true;
                 FilamentView.isComponentMounted := true |} in
  FilamentView.released (FilamentView.cleanupResources this).1.2 = [5]
  /\ FilamentView.released
       (FilamentView.cleanupResources (FilamentView.cleanupResources this).1.1).1.2 = [].
Proof.
  intros this.
  destruct (cleanupResources_twice this 7 eq_refl) as (_ & H1 & _ & _ & _ & H2 & _).
  split; [exact H1|exact H2].
Defined.

Section CacheProperties.

Context {Derived : Type}.
Implicit Types (self : @HybridObject Derived) (name : string) (runtime : Runtime).

Lemma cached_default runtime name self :
  default ∅ (_functionCache self !! runtime) !! name = cached runtime name self.
Proof. unfold cached. by destruct (_functionCache self !! runtime). Qed.

Lemma getOrCreate_cached runtime name self callable :
  callable_of (getOrCreate runtime name self).2 = Some callable ->
  cached runtime name (getOrCreate runtime name self).1 = Some callable.
Proof.
  unfold getOrCreate. rewrite cached_default.
  destruct (cached runtime name self) as [c|] eqn:Hc; simpl.
  - by intros [= <-].
  - destruct (_methods self !! name) as [hf|]; simpl; [|done].
    intros [= <-]. unfold cached. simpl. rewrite lookup_insert_eq. simpl.
    by rewrite lookup_insert_eq.
Qed.

Lemma getOrCreate_keeps runtime name self runtime' name' callable :
  cached runtime' name' self = Some callable ->
  cached runtime' name' (getOrCreate runtime name self).1 = Some callable.
Proof.
  intros Hc. unfold getOrCreate. rewrite cached_default.
  destruct (cached runtime name self) as [c|] eqn:Hc0; simpl; [done|].
  destruct (_methods self !! name) as [hf|]; simpl; [|done].
  unfold cached. simpl. destruct (decide (runtime = runtime')) as [->|Hne].
  - rewrite lookup_insert_eq. simpl. destruct (decide (name = name')) as [->|Hne'].
    + congruence.
    + rewrite lookup_insert_ne by done. by rewrite cached_default.
  - by rewrite lookup_insert_ne.
Qed.

Lemma getOrCreate_other runtime name self runtime' name' :
  (runtime', name') <> (runtime, name) ->
  cached runtime' name' (getOrCreate runtime name self).1 = cached runtime' name' self.
Proof.
  intros Hne. unfold getOrCreate. rewrite cached_default.
  destruct (cached runtime name self) as [c|] eqn:Hc0; simpl; [done|].
  destruct (_methods self !! name) as [hf|]; simpl; [|done].
  unfold cached. simpl. destruct (decide (runtime = runtime')) as [->|Hr].
  - rewrite lookup_insert_eq. simpl. rewrite lookup_insert_ne by congruence.
    by rewrite cached_default.
  - by rewrite lookup_insert_ne.
Qed.

Lemma getOrCreate_bound runtime name self :
  bound self -> bound (getOrCreate runtime name self).1.
Proof.
  intros Hb runtime' name' callable.
  destruct (decide ((runtime', name') = (runtime, name))) as [[= -> ->]|Hne].
  - destruct (callable_of (getOrCreate runtime name self).2) as [c|] eqn:Hres.
    + rewrite (getOrCreate_cached _ _ _ _ Hres). intros [= <-].
      revert Hres. unfold getOrCreate. rewrite cached_default.
      destruct (cached runtime name self) as [c0|] eqn:Hc0; simpl.
      * intros [= <-]. by apply (Hb _ name).
      * destruct (_methods self !! name); simpl; [|done]. by intros [= <-].
    + revert Hres. unfold getOrCreate. rewrite cached_default.
      destruct (cached runtime name self) as [c0|] eqn:Hc0; simpl; [done|].
      destruct (_methods self !! name); simpl; [done|]. intros _. by rewrite Hc0.
  - rewrite getOrCreate_other by done. apply Hb.
Qed.

Lemma lookups_bound keys self : bound self -> bound (lookups keys self).1.
Proof.
  revert self. induction keys as [|[runtime name] rest IH]; intros self Hb; simpl; [done|].
  destruct (getOrCreate runtime name self) as [self' l] eqn:Hg.
  specialize (IH self'). destruct (lookups rest self') as [self'' created]. simpl in *.
  apply IH. replace self' with (getOrCreate runtime name self).1 by by rewrite Hg.
  by apply getOrCreate_bound.
Qed.

Lemma getOrCreate_returns_bound runtime name self callable :
  bound self ->
  callable_of (getOrCreate runtime name self).2 = Some callable ->
  fn_runtime callable = runtime.
Proof.
  intros Hb Hres. apply (getOrCreate_bound runtime name self Hb runtime name).
  by apply getOrCreate_cached.
Qed.

(** A key that is in the cache is not created again. *)
Lemma lookups_not_created keys self runtime name callable :
  cached runtime name self = Some callable ->
  (runtime, name) ∉ (lookups keys self).2.
Proof.
  revert self. induction keys as [|[runtime' name'] rest IH]; intros self Hc; simpl.
  - apply not_elem_of_nil.
  - pose proof (getOrCreate_keeps runtime' name' self _ _ _ Hc) as Hkeep.
    assert (Hhit : forall c, (getOrCreate runtime' name' self).2 = Created c ->
                             (runtime', name') <> (runtime, name)).
    { intros c Hcr [= -> ->]. revert Hcr. unfold getOrCreate. rewrite cached_default, Hc.
      done. }
    destruct (getOrCreate runtime' name' self) as [self' l]. simpl in *.
    specialize (IH self' Hkeep). destruct (lookups rest self') as [self'' created]. simpl in *.
    destruct l as [c|c|]; try done.
    apply not_elem_of_cons. split; [|done]. intros Heq. by apply (Hhit c).
Qed.

Lemma lookups_created_once keys self : NoDup (lookups keys self).2.
Proof.
  revert self. induction keys as [|[runtime name] rest IH]; intros self; simpl.
  - constructor.
  - pose proof (getOrCreate_cached runtime name self) as Hc.
    destruct (getOrCreate runtime name self) as [self' l]. simpl in *.
    specialize (IH self').
    pose proof (fun c H => lookups_not_created rest self' runtime name c (Hc c H)) as Hnot.
    destruct (lookups rest self') as [self'' created]. simpl in *.
    destruct l as [c|c|]; try done. constructor; [|done]. by apply (Hnot c).
Qed.

(** C7. On an object whose cache started empty, after any sequence of
    lookups, the callable stored for a runtime [R1] and a name is not what a
    lookup of the name for another runtime [R2] returns; what a lookup returns
    is stored under its own runtime and name, so that the next lookup of the
    same key finds it and creates nothing; and over the whole sequence no key
    has a callable created for it twice. Nothing is in the cache of an object
    as constructed. *)
Theorem cache_keyed_by_runtime self (keys : list (Runtime * string)) (R1 R2 : Runtime) name :
  _functionCache self = ∅ ->
  R1 <> R2 ->
  let after := (lookups keys self).1 in
  (forall callable, cached R1 name after = Some callable ->
                    callable_of (getOrCreate R2 name after).2 <> Some callable)
  /\ (forall callable, callable_of (getOrCreate R2 name after).2 = Some callable ->
        getOrCreate R2 name (getOrCreate R2 name after).1
        = ((getOrCreate R2 name after).1, Hit callable))
  /\ NoDup (lookups keys self).2
  /\ cached R1 name (@constructed Derived) = None.
Proof.
  intros Hempty Hne after.
  assert (Hb : bound after).
  { apply lookups_bound. intros runtime name' callable. unfold cached. rewrite Hempty.
    by rewrite lookup_empty. }
  split; [|split; [|split]].
  - intros callable Hc Hres.
    apply (getOrCreate_returns_bound _ _ _ _ Hb) in Hres. apply Hb in Hc. congruence.
  - intros callable Hres. apply getOrCreate_cached in Hres.
    unfold getOrCreate at 1. rewrite cached_default. by rewrite Hres.
  - apply lookups_created_once.
  - done.
Qed.

End CacheProperties.

(** Two runtimes read ["greet"] on one object: each gets a callable of its
    own, created once. *)
Lemma cache_keyed_by_runtime_witness :
  let self := (registerHybridMethod LeftToRight "greet"
                 (NativeMethod [std_string; cpp_bool] (Returns std_string) greet) false
                 (@constructed User)).1 in
  let keys := [(1, "greet"); (2, "greet"); (1, "greet")] in
  (lookups keys self).2 = [(1, "greet"); (2, "greet")]
  /\ (forall callable, cached 1 "greet" (lookups keys self).1 = Some callable ->
        callable_of (getOrCreate 2 "greet" (lookups keys self).1).2 <> Some callable).
Proof.
  intros self keys. split; [reflexivity|].
  exact (proj1 (cache_keyed_by_runtime self keys 1 2 "greet" eq_refl ltac:(lia))).
Defined.

Section FirstUseProperties.

Import FirstUse.

Implicit Types (s : Shared) (t : nat) (p : Position).

Lemma fresh_consistent n : consistent (fresh n).
Proof.
  split; simpl; try done.
  - intros t p Hp Hin. apply lookup_replicate in Hp as [-> _]. done.
  - intros t Hp. apply lookup_replicate in Hp as [? _]. done.
  - intros t Hp. apply lookup_replicate in Hp as [? _]. done.
  - by left.
  - lia.
Qed.

Lemma moved t p s t' p' :
  move t p s !! t' = Some p' -> (t' = t /\ p' = p) \/ (t' <> t /\ threads s !! t' = Some p').
Proof.
  unfold move. intros H. apply list_lookup_insert_Some in H as [(-> & -> & _)|[Hne H]].
  - by left.
  - right. split; [congruence|done].
Qed.

(** Only the thread that holds the mutex is inside. *)
Lemma others_outside s t t' p p' :
  consistent s -> threads s !! t = Some p -> inside p = true ->
  t' <> t -> threads s !! t' = Some p' -> inside p' = false.
Proof.
  intros Hc Hp Hin Hne Hp'. destruct (inside p') eqn:Hin'; [|done].
  pose proof (holder s Hc t p Hp Hin). pose proof (holder s Hc t' p' Hp' Hin'). congruence.
Qed.

Lemma nobody_inside s t' p' :
  consistent s -> _mutex s = None -> threads s !! t' = Some p' -> inside p' = false.
Proof.
  intros Hc Hm Hp'. destruct (inside p') eqn:Hin'; [|done].
  pose proof (holder s Hc t' p' Hp' Hin'). congruence.
Qed.

(** The thread a fact is about is the one that moved, or another one. *)
Ltac whose H :=
  let Hne := fresh "Hne" in
  apply moved in H as [[-> ?]|[Hne H]]; [by simplify_eq/=|].

(** Another thread is outside, so a fact that puts it inside is absurd. *)
Ltac outsider Hc Ht H :=
  match type of H with
  | threads _ !! ?t' = Some ?p' =>
      let Hout := fresh "Hout" in
      first
        [ pose proof (others_outside _ _ t' _ p' Hc Ht eq_refl ltac:(done) H) as Hout
        | pose proof (nobody_inside _ t' p' Hc ltac:(done) H) as Hout ];
      simpl in Hout; try done; try congruence
  end.

Lemma step_consistent t s s' : consistent s -> step t s = Some s' -> consistent s'.
Proof.
  intros Hc. unfold step. destruct (threads s !! t) as [[]|] eqn:Ht; [| | | | |done].
  - (* enters an operation *)
    intros [= <-]. split; simpl.
    + intros t' p' H Hin. whose H. by apply (holder s Hc t' p').
    + intros t' H. whose H. by apply (operating s Hc t').
    + intros t' H. whose H. by apply (declaring s Hc t').
    + apply (loaded s Hc).
    + intros Hd. destruct (unloaded s Hc Hd) as [?|[t' Ht']]; [by left|right].
      exists t'. unfold move. rewrite list_lookup_insert_ne; [done|]. intros <-. congruence.
    + apply (returned s Hc).
  - (* takes the mutex *)
    destruct (_mutex s) as [h|] eqn:Hm; [done|]. intros [= <-]. split; simpl.
    + intros t' p' H Hin. whose H. outsider Hc Ht H.
    + intros t' H. whose H. by apply (operating s Hc t').
    + intros t' H. whose H. by apply (declaring s Hc t').
    + apply (loaded s Hc).
    + intros Hd. destruct (unloaded s Hc Hd) as [?|[t' Ht']]; [by left|]. outsider Hc Ht Ht'.
    + apply (returned s Hc).
  - (* tests the flag *)
    pose proof (holder s Hc t Checking Ht eq_refl) as Hm.
    destruct (_didLoadMethods s) eqn:Hd; intros [= <-]; split; simpl; try done.
    + (* set: the members are declared *)
      intros t' p' H Hin. whose H. by apply (holder s Hc t' p').
    + intros t' H. whose H. outsider Hc Ht H.
    + intros _. by apply (loaded s Hc).
    + (* not set: calls the hook *)
      intros t' p' H Hin. whose H. by apply (holder s Hc t' p').
    + intros t' H. whose H. outsider Hc Ht H.
    + intros t' H. split; [done|]. f_equal.
      destruct (unloaded s Hc Hd) as [?|[t'' Ht'']]; [done|].
      destruct (decide (t'' = t)) as [->|Hne]; [congruence|]. outsider Hc Ht Ht''.
    + intros _. right. exists t. unfold move. apply list_lookup_insert_eq.
      by apply lookup_lt_Some in Ht.
    + intros Hpos. pose proof (returned s Hc Hpos). congruence.
  - (* the hook has completed: sets the flag *)
    pose proof (holder s Hc t Declaring Ht eq_refl) as Hm.
    intros [= <-]. destruct (declaring s Hc t Ht) as [Hd Hcalls]. split; simpl; try done.
    + intros t' p' H Hin. whose H. by apply (holder s Hc t' p').
    + intros t' H. whose H. outsider Hc Ht H.
  - (* returns: gives the mutex back *)
    intros [= <-]. pose proof (operating s Hc t Ht) as Hd. split; simpl.
    + intros t' p' H Hin. whose H. outsider Hc Ht H.
    + intros t' H. whose H. outsider Hc Ht H.
    + intros t' H. whose H. outsider Hc Ht H.
    + apply (loaded s Hc).
    + congruence.
    + done.
Qed.

Lemma run_consistent schedule s : consistent s -> consistent (run schedule s).
Proof.
  revert s. induction schedule as [|t rest IH]; intros s Hc; simpl; [done|].
  apply IH. destruct (step t s) as [s'|] eqn:Hs; simpl; [|done].
  by apply (step_consistent t s).
Qed.

Lemma consistent_once s : consistent s -> hookCalls s <= 1.
Proof.
  intros Hc. destruct (_didLoadMethods s) eqn:Hd.
  - rewrite (loaded s Hc Hd). lia.
  - destruct (unloaded s Hc Hd) as [->|[t Ht]]; [lia|].
    destruct (declaring s Hc t Ht) as [_ ->]. lia.
Qed.

Lemma run_cons t rest s s' : step t s = Some s' -> run (t :: rest) s = run rest s'.
Proof. intros H. simpl. by rewrite H. Qed.

(** One thread on its own goes through a whole operation in five steps. *)
Lemma first_operation n t :
  t < n ->
  let s := run [t; t; t; t; t] (fresh n) in
  hookCalls s = 1 /\ _didLoadMethods s = true /\ completed s = 1 /\ _mutex s = None.
Proof.
  intros Hlt.
  assert (Hat : forall p (l : list Position), length l = n -> <[t := p]> l !! t = Some p).
  { intros p l Hl. apply list_lookup_insert_eq. lia. }
  assert (Hlen : forall p (l : list Position), length l = n -> length (<[t := p]> l) = n).
  { intros p l Hl. by rewrite length_insert. }
  pose proof (length_replicate n Outside) as H0.
  cbv zeta.
  erewrite run_cons; cycle 1.
  { unfold step, fresh, move. simpl. rewrite lookup_replicate_2 by done. reflexivity. }
  erewrite run_cons; cycle 1.
  { unfold step, move. simpl. rewrite Hat by done. reflexivity. }
  erewrite run_cons; cycle 1.
  { unfold step, move. simpl. rewrite Hat by auto. reflexivity. }
  erewrite run_cons; cycle 1.
  { unfold step, move. simpl. rewrite Hat by auto. reflexivity. }
  erewrite run_cons; cycle 1.
  { unfold step, move. simpl. rewrite Hat by auto. reflexivity. }
  done.
Qed.

(** C2. The hook has not run on an object as constructed. However the
    steps of the threads that use the object interleave, the hook is called
    at most once; the flag is set only when it has been called, and is set
    whenever an operation has returned, so that every operation after the
    first finds the members declared and does not call it again. A first
    operation on its own does call it. *)
Theorem declaration_runs_once (n : nat) (schedule : list nat) :
  let s := run schedule (fresh n) in
  hookCalls (fresh n) = 0
  /\ hookCalls s <= 1
  /\ (_didLoadMethods s = true -> hookCalls s = 1)
  /\ (0 < completed s -> _didLoadMethods s = true /\ hookCalls s = 1)
  /\ (forall t p, threads s !! t = Some p -> inside p = true -> _mutex s = Some t)
  /\ (forall t, t < n -> hookCalls (run [t; t; t; t; t] (fresh n)) = 1
                         /\ completed (run [t; t; t; t; t] (fresh n)) = 1).
Proof.
  intros s. pose proof (run_consistent schedule (fresh n) (fresh_consistent n)) as Hc.
  fold s in Hc. split; [done|]. split; [by apply consistent_once|].
  split; [apply (loaded s Hc)|]. split.
  - intros Hpos. pose proof (returned s Hc Hpos) as Hd. split; [done|]. by apply (loaded s Hc).
  - split; [apply (holder s Hc)|]. intros t Hlt.
    destruct (first_operation n t Hlt) as (H1 & _ & H2 & _). done.
Qed.

End FirstUseProperties.

(** Two threads reach for an object at once: thread 1 waits while thread 0
    declares the members, and does not declare them again. *)
Lemma declaration_runs_once_witness :
  let s := FirstUse.run [0; 1; 0; 1; 0; 1; 0; 0; 1; 1; 1; 1] (FirstUse.fresh 2) in
  FirstUse.completed s = 2 /\ FirstUse._didLoadMethods s = true /\ FirstUse.hookCalls s = 1.
Proof.
  intros s. split; [reflexivity|].
  destruct (declaration_runs_once 2 [0; 1; 0; 1; 0; 1; 0; 0; 1; 1; 1; 1]) as (_ & _ & _ & H & _).
  apply H. vm_compute. lia.
Defined.

(** * Further properties of the registry *)

Section RegistryInvariants.

Context {Derived : Type}.
Variable order : EvaluationOrder.
Implicit Types (self : @HybridObject Derived) (name : string) (d : @Declaration Derived).

(** A declaration throws and changes nothing, or returns having inserted. *)
Lemma declare_cases name d self :
  (NameConflictError (declare order name d self).2 = true /\ (declare order name d self).1 = self)
  \/ ((declare order name d self).2 = Ok tt
      /\ inserted order name d self (declare order name d self).1).
Proof.
  destruct d as [method override|Ret method|V method]; simpl.
  - unfold registerHybridMethod.
    destruct (negb override && _) eqn:E1; [left; done|].
    destruct (negb override && (0 <? _)) eqn:E2; [left; done|].
    right. split; [done|]. repeat split; simpl; try done.
    destruct override; [done|]. simpl in E2. by apply count_zero.
  - unfold registerHybridGetter.
    destruct (0 <? count (_getters self) name) eqn:E1; [left; done|].
    destruct (0 <? count (_methods self) name) eqn:E2; [left; done|].
    right. split; [done|]. repeat split; simpl; try done. by apply count_zero.
  - unfold registerHybridSetter.
    destruct (0 <? count (_setters self) name) eqn:E1; [left; done|].
    destruct (0 <? count (_methods self) name) eqn:E2; [left; done|].
    right. split; [done|]. repeat split; simpl; try done. by apply count_zero.
Qed.

Lemma count_insert_eq {A : Type} (m : gmap string A) name (x : A) :
  count (<[name := x]> m) name = 1.
Proof. unfold count. by rewrite lookup_insert_eq. Qed.

Lemma count_insert_ne {A : Type} (m : gmap string A) name name' (x : A) :
  name <> name' -> count (<[name := x]> m) name' = count m name'.
Proof. intros Hne. unfold count. by rewrite lookup_insert_ne. Qed.

Lemma count_bound {A : Type} (m : gmap string A) name : count m name = 0 \/ count m name = 1.
Proof. unfold count. destruct (m !! name); auto. Qed.

(** A declaration under one name leaves every other name as it was. *)
Lemma declare_other name d self name' :
  name <> name' ->
  _methods (declare order name d self).1 !! name' = _methods self !! name'
  /\ _getters (declare order name d self).1 !! name' = _getters self !! name'
  /\ _setters (declare order name d self).1 !! name' = _setters self !! name'.
Proof.
  intros Hne. destruct (declare_cases name d self) as [[_ ->]|[_ Hins]]; [done|].
  destruct Hins as [Hmap _].
  destruct d as [method override|Ret method|V method]; simpl in *.
  - destruct Hmap as (-> & _ & -> & ->). by rewrite lookup_insert_ne.
  - destruct Hmap as (-> & _ & -> & ->). by rewrite lookup_insert_ne.
  - destruct Hmap as (-> & _ & -> & ->). by rewrite lookup_insert_ne.
Qed.

Lemma declare_separated name d self :
  overrides d = false -> separated self -> separated (declare order name d self).1.
Proof.
  intros Hov Hsep. destruct (declare_cases name d self) as [[_ ->]|[Hok Hins]]; [done|].
  destruct Hins as [Hmap _]. intros name' Hm.
  destruct (decide (name = name')) as [<-|Hne].
  - assert (Hfree : NameConflictError (declare order name d self).2 = false) by by rewrite Hok.
    destruct d as [method override|Ret method|V method]; simpl in *.
    + subst override. rewrite registerHybridMethod_conflict in Hfree. simpl in Hfree.
      destruct Hmap as (_ & _ & -> & ->).
      pose proof (count_bound (_getters self) name).
      pose proof (count_bound (_setters self) name).
      destruct (0 <? count (_getters self) name) eqn:Eg; [done|].
      destruct (0 <? count (_setters self) name) eqn:Es; [done|].
      apply Nat.ltb_ge in Eg, Es. lia.
    + rewrite registerHybridGetter_conflict in Hfree. destruct Hmap as (_ & _ & Hm' & _).
      rewrite Hm' in Hm. apply Nat.ltb_lt in Hm. rewrite Hm in Hfree.
      by destruct (0 <? count (_getters self) name).
    + rewrite registerHybridSetter_conflict in Hfree. destruct Hmap as (_ & _ & Hm' & _).
      rewrite Hm' in Hm. apply Nat.ltb_lt in Hm. rewrite Hm in Hfree.
      by destruct (0 <? count (_setters self) name).
  - destruct (declare_other name d self name' Hne) as (Hm' & Hg' & Hs').
    unfold count in *. rewrite Hm' in Hm. rewrite Hg', Hs'. by apply Hsep.
Qed.

Lemma constructed_separated : separated (@constructed Derived).
Proof. intros name. unfold count. simpl. rewrite lookup_empty. lia. Qed.

(** X1. A [loadHybridMethods] that never asks for an override keeps the
    names of the methods apart from the names of the getters and setters: on
    an object on which no name is both, as a constructed one, no name is both
    afterwards, whether the declarations all return or one of them throws. *)
Theorem declarations_keep_separated (declarations : list (string * Declaration)) self :
  Forall (fun nd => overrides nd.2 = false) declarations ->
  separated self ->
  separated (declareAll order declarations self).1.
Proof.
  intros Hall. revert self. induction Hall as [|[name d] rest Hov _ IH]; intros self Hsep; [done|].
  simpl. pose proof (declare_separated name d self Hov Hsep) as Hstep.
  destruct (declare order name d self) as [self' [[]|e]]; simpl in *; [by apply IH|done].
Qed.

(** A getter or a setter, once declared, is there for good; a method is
    there for good too, and is the same one unless a declaration overrides
    it. *)
Lemma declare_stays name d self name' :
  (forall g, _getters self !! name' = Some g ->
             _getters (declare order name d self).1 !! name' = Some g)
  /\ (forall f, _setters self !! name' = Some f ->
                _setters (declare order name d self).1 !! name' = Some f)
  /\ (is_Some (_methods self !! name') -> is_Some (_methods (declare order name d self).1 !! name'))
  /\ (forall m, _methods self !! name' = Some m -> name <> name' \/ overrides d = false ->
                _methods (declare order name d self).1 !! name' = Some m).
Proof.
  destruct (decide (name = name')) as [<-|Hne].
  - destruct (declare_cases name d self) as [[_ ->]|[_ [Hmap _]]]; [by repeat split|].
    destruct d as [method override|Ret method|V method]; simpl in *.
    + destruct Hmap as (-> & Hfresh & -> & ->). repeat split; try done.
      * intros _. rewrite lookup_insert_eq. eauto.
      * intros m Hm [? | ->]; [done|]. congruence.
    + destruct Hmap as (-> & Hfresh & -> & ->). repeat split; try done. congruence.
    + destruct Hmap as (-> & Hfresh & -> & ->). repeat split; try done. congruence.
  - destruct (declare_other name d self name' Hne) as (-> & -> & ->). by repeat split.
Qed.

Lemma declareAll_keeps_names (declarations : list (string * Declaration)) self name :
  (is_Some (_getters self !! name) ->
   is_Some (_getters (declareAll order declarations self).1 !! name))
  /\ (is_Some (_setters self !! name) ->
      is_Some (_setters (declareAll order declarations self).1 !! name))
  /\ (is_Some (_methods self !! name) ->
      is_Some (_methods (declareAll order declarations self).1 !! name)).
Proof.
  revert self. induction declarations as [|[name' d] rest IH]; intros self; [by repeat split|].
  simpl. destruct (declare_stays name' d self name) as (Hg & Hs & Hm & _).
  destruct (declare order name' d self) as [self' [[]|e]] eqn:Hd; simpl in *.
  - destruct (IH self') as (IHg & IHs & IHm).
    repeat split; intros [x Hx]; eauto.
  - repeat split; intros [x Hx]; eauto.
Qed.

(** X3. Nothing a [loadHybridMethods] declares takes a member away: a name
    that has a getter, a setter or a method before has it after, the getter
    and the setter are the same host functions as before, and the method is
    the same unless one of the declarations is an override under its name. *)
Theorem declared_members_stay (declarations : list (string * Declaration)) self name :
  (forall g, _getters self !! name = Some g ->
             _getters (declareAll order declarations self).1 !! name = Some g)
  /\ (forall f, _setters self !! name = Some f ->
                _setters (declareAll order declarations self).1 !! name = Some f)
  /\ (is_Some (_methods self !! name) ->
      is_Some (_methods (declareAll order declarations self).1 !! name))
  /\ (forall m, _methods self !! name = Some m ->
                Forall (fun nd => nd.1 <> name \/ overrides nd.2 = false) declarations ->
                _methods (declareAll order declarations self).1 !! name = Some m).
Proof.
  revert self. induction declarations as [|[name' d] rest IH]; intros self; [by repeat split|].
  simpl. destruct (declare_stays name' d self name) as (Hg & Hs & Hm & Hm').
  destruct (declare order name' d self) as [self' [[]|e]] eqn:Hd; simpl in *.
  - destruct (IH self') as (IHg & IHs & IHm & IHm'). repeat split; eauto.
    intros m Hlook Hall. inversion Hall as [|? ? Hhead Htail]; subst. simpl in Hhead. eauto.
  - repeat split; eauto. intros m Hlook Hall.
    inversion Hall as [|? ? Hhead Htail]; subst. simpl in Hhead. eauto.
Qed.

(** X4. A [loadHybridMethods] that has returned cannot be run again: its
    first declaration, unless it is an override, now throws the name-conflict
    error, and the object is left as the first run made it. *)
Theorem second_load_throws name d (rest : list (string * Declaration)) self self' :
  overrides d = false ->
  declareAll order ((name, d) :: rest) self = (self', Ok tt) ->
  NameConflictError (declareAll order ((name, d) :: rest) self').2 = true
  /\ (declareAll order ((name, d) :: rest) self').1 = self'.
Proof.
  intros Hov Hrun. simpl in Hrun.
  destruct (declare_cases name d self) as [[Hthrew _]|[Hok [Hmap _]]].
  { destruct (declare order name d self) as [s1 [[]|e]]; simpl in *; congruence. }
  destruct (declare order name d self) as [s1 r1] eqn:Hd. simpl in *. subst r1.
  destruct (declareAll_keeps_names rest s1 name) as (Hg & Hs & Hm).
  rewrite Hrun in Hg, Hs, Hm. simpl in *.
  assert (Hthrows : NameConflictError (declare order name d self').2 = true).
  { destruct d as [method override|Ret method|V method]; simpl in *.
    - subst override. rewrite registerHybridMethod_conflict. simpl.
      destruct Hmap as (Hmap & _). unfold count.
      destruct Hm as [m ->]; [rewrite Hmap, lookup_insert_eq; eauto|].
      by rewrite !orb_true_r.
    - rewrite registerHybridGetter_conflict. destruct Hmap as (Hmap & _). unfold count.
      destruct Hg as [f ->]; [rewrite Hmap, lookup_insert_eq; eauto|]. done.
    - rewrite registerHybridSetter_conflict. destruct Hmap as (Hmap & _). unfold count.
      destruct Hs as [f ->]; [rewrite Hmap, lookup_insert_eq; eauto|]. done. }
  destruct (declare_cases name d self') as [[_ Hsame]|[Hok' _]].
  - destruct (declare order name d self') as [s2 [[]|e]]; simpl in *; [done|]. by subst.
  - rewrite Hok' in Hthrows. done.
Qed.

(** The outcome of a declaration depends on its own name only. *)
Lemma declare_result_ext name d self self' :
  _methods self !! name = _methods self' !! name ->
  _getters self !! name = _getters self' !! name ->
  _setters self !! name = _setters self' !! name ->
  (declare order name d self).2 = (declare order name d self').2.
Proof.
  intros Hm Hg Hs.
  assert (Cm : count (_methods self) name = count (_methods self') name)
    by (unfold count; by rewrite Hm).
  assert (Cg : count (_getters self) name = count (_getters self') name)
    by (unfold count; by rewrite Hg).
  assert (Cs : count (_setters self) name = count (_setters self') name)
    by (unfold count; by rewrite Hs).
  destruct d as [method override|Ret method|V method]; simpl;
    unfold registerHybridMethod, registerHybridGetter, registerHybridSetter;
    rewrite Cm, ?Cg, ?Cs; repeat case_match; done.
Qed.

(** X2. Declarations under two different names do not see each other:
    each one returns or throws as it would on its own, and the object they
    leave is the same in either order. *)
Theorem declarations_commute name1 name2 d1 d2 self :
  name1 <> name2 ->
  let first := declare order name1 d1 self in
  let second := declare order name2 d2 self in
  (declare order name2 d2 first.1).2 = second.2
  /\ (declare order name1 d1 second.1).2 = first.2
  /\ (declare order name2 d2 first.1).1 = (declare order name1 d1 second.1).1.
Proof.
  intros Hne first second.
  destruct (declare_other name1 d1 self name2 Hne) as (Hm1 & Hg1 & Hs1).
  destruct (declare_other name2 d2 self name1 (not_eq_sym Hne)) as (Hm2 & Hg2 & Hs2).
  pose proof (declare_result_ext name2 d2 first.1 self Hm1 Hg1 Hs1) as R2.
  pose proof (declare_result_ext name1 d1 second.1 self Hm2 Hg2 Hs2) as R1.
  split; [exact R2|]. split; [exact R1|].
  fold first in R1. fold second in R2.
  destruct (declare_cases name1 d1 self) as [[T1 E1]|[O1 [I1 (F1 & F2 & F3)]]];
    destruct (declare_cases name2 d2 self) as [[T2 E2]|[O2 [I2 (G1 & G2 & G3)]]];
    fold first in T1, E1 || fold first in O1, I1, F1, F2, F3;
    fold second in T2, E2 || fold second in O2, I2, G1, G2, G3.
  - destruct (declare_cases name2 d2 first.1) as [[_ ->]|[O _]]; [|rewrite <- R2, O in T2; done].
    destruct (declare_cases name1 d1 second.1) as [[_ ->]|[O _]]; [|rewrite <- R1, O in T1; done].
    congruence.
  - destruct (declare_cases name1 d1 second.1) as [[_ ->]|[O _]]; [|rewrite <- R1, O in T1; done].
    by rewrite E1.
  - destruct (declare_cases name2 d2 first.1) as [[_ ->]|[O _]]; [|rewrite <- R2, O in T2; done].
    by rewrite E2.
  - destruct (declare_cases name2 d2 first.1) as [[T _]|[_ [J2 (H1 & H2 & H3)]]];
      [rewrite R2, O2 in T; done|].
    destruct (declare_cases name1 d1 second.1) as [[T _]|[_ [J1 (K1 & K2 & K3)]]];
      [rewrite R1, O1 in T; done|].
    destruct (declare order name2 d2 first.1).1 as [a1 a2 a3 a4 a5 a6].
    destruct (declare order name1 d1 second.1).1 as [b1 b2 b3 b4 b5 b6].
    destruct first.1 as [f1 f2 f3 f4 f5 f6]. destruct second.1 as [s1 s2 s3 s4 s5 s6].
    destruct self as [o1 o2 o3 o4 o5 o6]. simpl in *. subst.
    destruct d1 as [m1 v1|R1' m1|V1 m1], d2 as [m2 v2|R2' m2|V2 m2]; simpl in *;
      destruct I1 as (? & _ & ? & ?), I2 as (? & _ & ? & ?),
               J1 as (? & _ & ? & ?), J2 as (? & _ & ? & ?); subst;
      f_equal; by rewrite insert_insert_ne.
Qed.

End RegistryInvariants.

(** * Further properties of the host functions *)

Section HostFunctionEdges.

Context {Derived : Type}.
Implicit Types (self : @HybridObject Derived) (name : string) (obj : Derived).
Implicit Types (runtime : Runtime) (args : list Value) (Args : list jsi_type).
Implicit Types (order : EvaluationOrder).

Lemma convertArgs_returned order Args runtime args Is (converted : pack Args) :
  convertArgs order Args runtime args Is = Returned converted ->
  converts Args runtime args Is converted.
Proof.
  revert Is converted. induction Args as [|A As IH]; intros Is converted; simpl; [done|].
  unfold read. specialize (IH (S Is)).
  destruct (args !! Is) as [v|]; simpl.
  - destruct (fromJSI runtime v) as [a|e] eqn:Hc; simpl;
      destruct order; destruct (convertArgs _ As runtime args (S Is)) as [rest|e'|slot];
      simpl; try done; intros [= <-]; simpl; eauto.
  - destruct order; destruct (convertArgs _ As runtime args (S Is)) as [rest|e'|slot]; done.
Qed.

(** When the conversions do not all succeed, the object is not touched. *)
Lemma callMethod_not_converted order Args Ret
    (method : method_sig Args (native (ret_carrier Ret))) runtime args obj :
  (forall converted, convertArgs order Args runtime args 0 <> Returned converted) ->
  callMethod order Args Ret method runtime args obj
  = (obj, match convertArgs order Args runtime args 0 with
          | Returned _ => PastEnd 0
          | Thrown e => Thrown e
          | PastEnd slot => PastEnd slot
          end).
Proof.
  intros Hno. unfold callMethod, bind, pure_.
  destruct (convertArgs order Args runtime args 0) as [converted|e|slot].
  - by destruct (Hno converted).
  - by destruct Ret.
  - by destruct Ret.
Qed.

(** X6. When an argument is missing or is not one its parameter's
    [fromJSI] accepts, the native method is not called: the object is as it
    was, and the call comes to the error of the conversion of one of the
    arguments, or to a read of a slot the caller did not provide. A call that
    returns a value has converted every argument and called the method with
    them. *)
Theorem failed_conversion_skips_call order Args Ret
    (method : method_sig Args (native (ret_carrier Ret))) runtime thisVal args count obj :
  let r := createHybridMethod order (NativeMethod Args Ret method) runtime thisVal args count obj in
  ((forall converted, ~ converts Args runtime args 0 converted) ->
   r.1 = obj
   /\ match r.2 with
      | Returned _ => False
      | PastEnd slot => length args <= slot < length Args
      | Thrown e =>
          exists (i : nat) (v : Value) (A : jsi_type),
            args !! i = Some v /\ Args !! i = Some A
            /\ fromJSI (T := carrier A) runtime v = Throw e
      end)
  /\ (forall v, r.2 = Returned v ->
        exists (converted : pack Args) (x : ret_carrier Ret),
          converts Args runtime args 0 converted
          /\ invoke method converted obj = (r.1, Ok x)).
Proof.
  simpl. split.
  - intros Hno. rewrite callMethod_not_converted.
    + split; [done|]. pose proof (convertArgs_outcome order Args runtime args 0) as Hout.
      destruct (convertArgs order Args runtime args 0) as [converted|e|slot] eqn:Hc.
      * destruct (Hno converted). by apply (convertArgs_returned order).
      * exact Hout.
      * simpl in *. lia.
    + intros converted Hc. destruct (Hno converted). by apply (convertArgs_returned order).
  - intros v. unfold callMethod, bind, pure_, call, ret.
    destruct (convertArgs order Args runtime args 0) as [converted|e|slot] eqn:Hc;
      [|by destruct Ret..].
    apply convertArgs_returned in Hc.
    destruct Ret as [|T]; simpl in *;
      destruct (invoke method converted obj) as [obj' [x|e]] eqn:Hcall; simpl; try done;
      intros _; by exists converted, x.
Qed.

(** X8. What the native method throws is what the caller gets, with the
    object as the method left it; and when the method has returned and
    [toJSI] of its result throws, the caller gets that error, and the object
    keeps what the method did. *)
Theorem errors_after_the_call order Args runtime thisVal args count
    (converted : pack Args) obj obj' :
  converts Args runtime args 0 converted ->
  (forall Ret (method : method_sig Args (native (ret_carrier Ret))) e,
      invoke method converted obj = (obj', Throw e) ->
      createHybridMethod order (NativeMethod Args Ret method) runtime thisVal args count obj
      = (obj', Thrown e))
  /\ (forall (T : jsi_type) (method : method_sig Args (native (carrier T))) x e,
      invoke method converted obj = (obj', Ok x) ->
      toJSI runtime x = Throw e ->
      createHybridMethod order (NativeMethod Args (Returns T) method) runtime thisVal args count obj
      = (obj', Thrown e)).
Proof.
  intros Hconv. split.
  - intros Ret method e Hcall. simpl. unfold callMethod, bind, pure_, call.
    rewrite (convertArgs_converts order _ _ _ _ _ Hconv). destruct Ret; by rewrite Hcall.
  - intros T method x e Hcall Hto. simpl. unfold callMethod, bind, pure_, call.
    rewrite (convertArgs_converts order _ _ _ _ _ Hconv). rewrite Hcall. simpl. by rewrite Hto.
Qed.

(** X7. The order in which the compiler has the arguments converted shows
    in nothing but the error reported when more than one conversion fails:
    under both orders the object is left the same, and a value one of them
    returns is the value the other returns. *)
Theorem evaluation_order_is_unobservable (m : @Method Derived) runtime thisVal args count obj :
  let l := createHybridMethod LeftToRight m runtime thisVal args count obj in
  let r := createHybridMethod RightToLeft m runtime thisVal args count obj in
  l.1 = r.1
  /\ (forall v, l.2 = Returned v <-> r.2 = Returned v)
  /\ (match m with
      | JsiMethod _ => True
      | NativeMethod Args _ _ => exists converted, converts Args runtime args 0 converted
      end -> l = r).
Proof.
  destruct m as [method|Args Ret method]; simpl; [by repeat split; intros; eauto|].
  destruct (convertArgs LeftToRight Args runtime args 0) as [converted|e|slot] eqn:Hl.
  - apply convertArgs_returned in Hl.
    pose proof (convertArgs_converts RightToLeft _ _ _ _ _ Hl) as Hr.
    pose proof (convertArgs_converts LeftToRight _ _ _ _ _ Hl) as Hl'.
    unfold callMethod, bind, pure_. rewrite Hl', Hr. by repeat split.
  - assert (Hr : forall converted, convertArgs RightToLeft Args runtime args 0 <> Returned converted).
    { intros converted Hr. apply convertArgs_returned in Hr.
      rewrite (convertArgs_converts LeftToRight _ _ _ _ _ Hr) in Hl. done. }
    rewrite (callMethod_not_converted LeftToRight), (callMethod_not_converted RightToLeft);
      [|done|intros c Hc; congruence].
    rewrite Hl. simpl. split; [done|]. split.
    + intros v. split; [done|].
      destruct (convertArgs RightToLeft Args runtime args 0) as [c|e'|slot'] eqn:Hc; [|done..].
      by destruct (Hr c).
    + intros [converted Hconv].
      rewrite (convertArgs_converts LeftToRight _ _ _ _ _ Hconv) in Hl. done.
  - assert (Hr : forall converted, convertArgs RightToLeft Args runtime args 0 <> Returned converted).
    { intros converted Hr. apply convertArgs_returned in Hr.
      rewrite (convertArgs_converts LeftToRight _ _ _ _ _ Hr) in Hl. done. }
    rewrite (callMethod_not_converted LeftToRight), (callMethod_not_converted RightToLeft);
      [|done|intros c Hc; congruence].
    rewrite Hl. simpl. split; [done|]. split.
    + intros v. split; [done|].
      destruct (convertArgs RightToLeft Args runtime args 0) as [c|e'|slot'] eqn:Hc; [|done..].
      by destruct (Hr c).
    + intros [converted Hconv].
      rewrite (convertArgs_converts LeftToRight _ _ _ _ _ Hconv) in Hl. done.
Qed.

(** X5. A property declared with a getter and a setter under one name
    reads back what was written: the setter's host function, given a value
    that converts to [x], has the native setter store [x] and returns
    [undefined]; the getter's host function, whatever arguments it is given,
    then returns what [toJSI] makes of [x], provided the native getter reads
    what the native setter writes. *)
Theorem property_reads_what_was_written order name (T : jsi_type)
    (getter : native (carrier T)) (setter : carrier T -> native unit)
    self self1 self2 runtime (v : Value) (x : carrier T) :
  registerHybridGetter order name (Returns T) getter self = (self1, Ok tt) ->
  registerHybridSetter order name T setter self1 = (self2, Ok tt) ->
  fromJSI runtime v = Ok x ->
  (forall obj, exists obj', setter x obj = (obj', Ok tt) /\ getter obj' = (obj', Ok x)) ->
  exists write read : HostFunctionType,
    _setters self2 !! name = Some write
    /\ _getters self2 !! name = Some read
    /\ forall thisVal obj args count,
         (write runtime thisVal [v] 1 obj).2 = Returned undefined
         /\ read runtime thisVal args count (write runtime thisVal [v] 1 obj).1
            = ((write runtime thisVal [v] 1 obj).1, lift (toJSI runtime x)).
Proof.
  intros Hget Hset Hconv Hlaw.
  unfold registerHybridGetter in Hget.
  destruct (0 <? count (_getters self) name); [done|].
  destruct (0 <? count (_methods self) name); [done|]. injection Hget as <-.
  unfold registerHybridSetter in Hset. simpl in Hset.
  destruct (0 <? count (_setters self) name); [done|].
  destruct (0 <? count (_methods self) name); [done|]. injection Hset as <-.
  eexists _, _. simpl. rewrite !lookup_insert_eq. split; [done|]. split; [done|].
  intros thisVal obj args count. destruct (Hlaw obj) as (obj' & Hs & Hg).
  unfold callMethod. simpl. unfold read. simpl. rewrite Hconv.
  destruct order; simpl; unfold bind, pure_, call, ret; simpl; rewrite Hs; simpl;
    rewrite Hg; done.
Qed.

End HostFunctionEdges.

(** Two arguments of the wrong types: which of the two conversions is
    reported depends on the order. *)
Example orders_report_different_errors :
  let method := NativeMethod [std_string; cpp_bool] (Returns std_string) greet in
  createHybridMethod LeftToRight method 1 undefined [boolean true; text "loud"] 2 bob
    = (bob, Thrown (TypeConversionError "string" "boolean"))
  /\ createHybridMethod RightToLeft method 1 undefined [boolean true; text "loud"] 2 bob
    = (bob, Thrown (TypeConversionError "boolean" "string")).
Proof. split; reflexivity. Qed.

(** A property, a method, and a method under the name of the property: the
    last declaration throws, and the names are still apart. *)
Lemma declarations_keep_separated_witness :
  separated
    (declareAll LeftToRight
       [("name", DeclareGetter (Returns std_string) getName);
        ("name", DeclareSetter std_string setName);
        ("greet", DeclareMethod (NativeMethod [std_string; cpp_bool] (Returns std_string) greet) false);
        ("name", DeclareMethod (NativeMethod [std_string] Void rename) false)]
       constructed).1.
Proof.
  apply declarations_keep_separated.
  - repeat constructor.
  - apply constructed_separated.
Defined.

Lemma declarations_commute_witness :
  let getter := DeclareGetter (Returns std_string) getName in
  let method := DeclareMethod (NativeMethod [std_string; cpp_bool] (Returns std_string) greet) false in
  (declare LeftToRight "greet" method (declare LeftToRight "name" getter constructed).1).1
  = (declare LeftToRight "name" getter (declare LeftToRight "greet" method constructed).1).1.
Proof.
  intros getter method.
  exact (proj2 (proj2 (declarations_commute LeftToRight "name" "greet" getter method
                         constructed ltac:(done)))).
Defined.

(** The getter of ["name"] is still the one declared first after a setter
    and a method have been declared. *)
Lemma declared_members_stay_witness :
  let self := (registerHybridGetter LeftToRight "name" (Returns std_string) getName constructed).1 in
  _getters
    (declareAll LeftToRight
       [("name", DeclareSetter std_string setName);
        ("name", DeclareMethod (NativeMethod [std_string] Void rename) true)]
       self).1 !! "name"
  = Some (createHybridMethod LeftToRight (NativeMethod [] (Returns std_string) getName)).
Proof.
  intros self.
  apply (proj1 (declared_members_stay LeftToRight
                  [("name", DeclareSetter std_string setName);
                   ("name", DeclareMethod (NativeMethod [std_string] Void rename) true)]
                  self "name")).
  reflexivity.
Defined.

Lemma second_load_throws_witness :
  let declarations :=
    [("name", DeclareGetter (Returns std_string) getName);
     ("greet", DeclareMethod (NativeMethod [std_string; cpp_bool] (Returns std_string) greet) false)] in
  let self' := (declareAll LeftToRight declarations (@constructed User)).1 in
  NameConflictError (declareAll LeftToRight declarations self').2 = true
  /\ (declareAll LeftToRight declarations self').1 = self'.
Proof.
  intros declarations self'.
  apply (second_load_throws LeftToRight "name" (DeclareGetter (Returns std_string) getName)
           [("greet", DeclareMethod (NativeMethod [std_string; cpp_bool] (Returns std_string) greet) false)]
           constructed self' eq_refl eq_refl).
Defined.

(** ["Alice"] written to ["name"] and read back, from runtime 1. *)
Lemma property_reads_what_was_written_witness :
  exists write read : HostFunctionType,
    _setters (registerHybridSetter RightToLeft "name" std_string setName
                (registerHybridGetter RightToLeft "name" (Returns std_string) getName
                   constructed).1).1 !! "name" = Some write
    /\ _getters (registerHybridSetter RightToLeft "name" std_string setName
                  (registerHybridGetter RightToLeft "name" (Returns std_string) getName
                     constructed).1).1 !! "name" = Some read
    /\ (read 1 undefined [] 0 (write 1 undefined [text "Alice"] 1 bob).1).2
       = Returned (text "Alice").
Proof.
  destruct (property_reads_what_was_written RightToLeft "name" std_string getName setName
              constructed _ _ 1 (text "Alice") "Alice" eq_refl eq_refl eq_refl)
    as (write & read & Hw & Hr & Hcall).
  - intros obj. eexists. split; reflexivity.
  - exists write, read. split; [exact Hw|]. split; [exact Hr|].
    destruct (Hcall undefined bob [] 0) as [_ ->]. reflexivity.
Defined.

(** [greet] without its second argument: not called. *)
Lemma failed_conversion_skips_call_witness :
  (createHybridMethod LeftToRight
     (NativeMethod [std_string; cpp_bool] (Returns std_string) greet)
     1 undefined [text "Hello"] 1 bob).1 = bob.
Proof.
  apply (failed_conversion_skips_call LeftToRight [std_string; cpp_bool] (Returns std_string)
           greet 1 undefined [text "Hello"] 1 bob).
  intros converted (_ & (v & Hv & _) & _). discriminate.
Defined.

(** [rename] refuses the empty name: the caller gets its error, and the
    attempt is counted. *)
Lemma errors_after_the_call_witness :
  createHybridMethod LeftToRight (NativeMethod [std_string] Void rename)
    1 undefined [text EmptyString] 1 bob
  = ({| userName := "Bob"; renamed := 1 |}, Thrown (runtime_error "A user needs a name")).
Proof.
  apply (proj1 (errors_after_the_call LeftToRight [std_string] 1 undefined [text EmptyString] 1
                  (EmptyString, tt) bob {| userName := "Bob"; renamed := 1 |}
                  ltac:(simpl; split; [eexists; split; reflexivity|exact I]))
           Void rename (runtime_error "A user needs a name")).
  reflexivity.
Defined.

Lemma evaluation_order_is_unobservable_witness :
  let method := NativeMethod [std_string; cpp_bool] (Returns std_string) greet in
  createHybridMethod LeftToRight method 1 undefined [text "Hello"; boolean false] 2 bob
  = createHybridMethod RightToLeft method 1 undefined [text "Hello"; boolean false] 2 bob.
Proof.
  intros method.
  apply (evaluation_order_is_unobservable method 1 undefined [text "Hello"; boolean false] 2 bob).
  exists ("Hello", (false, tt)). simpl. repeat split; eexists; split; reflexivity.
Defined.

(** * Properties of the life of a FilamentView *)

Section LifecycleProperties.

Import FilamentView Lifecycle.

Implicit Types (c : Component) (r : Reaction) (w : World) (e : Event).

Lemma released_app (l k : list Effect) : released (l ++ k) = released l ++ released k.
Proof. induction l as [|[] l IH]; simpl; by rewrite ?IH. Qed.

Lemma bases_app (l k : list Call) : bases (l ++ k) = bases l ++ bases k.
Proof. apply omap_app. Qed.

Lemma bases_map (l : list Effect) : bases (map Base l) = l.
Proof. induction l as [|x l IH]; simpl; [done|]. unfold bases in *. simpl. by rewrite IH. Qed.

Lemma releasedChains_app (l k : list Call) :
  releasedChains (l ++ k) = releasedChains l ++ releasedChains k.
Proof. unfold releasedChains. by rewrite bases_app, released_app. Qed.

Lemma createdChains_app (l k : list Call) :
  createdChains (l ++ k) = createdChains l ++ createdChains k.
Proof. apply omap_app. Qed.

Lemma handedOut_app (l k : list Call) : handedOut (l ++ k) = handedOut l ++ handedOut k.
Proof. apply omap_app. Qed.

Lemma addedListeners_app (l k : list Call) :
  addedListeners (l ++ k) = addedListeners l ++ addedListeners k.
Proof. apply omap_app. Qed.

Lemma removedListeners_app (l k : list Call) :
  removedListeners (l ++ k) = removedListeners l ++ removedListeners k.
Proof. apply omap_app. Qed.

Lemma createdChains_handedOut (l : list Call) sc : sc ∈ createdChains l -> sc ∈ handedOut l.
Proof.
  unfold createdChains, handedOut. rewrite !list_elem_of_omap.
  intros (call & Hin & Hc). exists call. split; [done|].
  destruct call as [| | | | |? [?|]| | | | | | | | |]; simpl in *; congruence.
Qed.

Lemma addedListeners_handedOut (l : list Call) x : x ∈ addedListeners l -> x ∈ handedOut l.
Proof.
  unfold addedListeners, handedOut. rewrite !list_elem_of_omap.
  intros (call & Hin & Hc). exists call. split; [done|].
  destruct call as [| | | | |? [?|]| | | | | | | | |]; simpl in *; congruence.
Qed.

Lemma NoDup_submseteq_mono {A : Type} (k l : list A) : k ⊆+ l -> NoDup l -> NoDup k.
Proof.
  intros [k' Hk]%submseteq_Permutation. rewrite Hk. by intros [? _]%NoDup_app.
Qed.

(** Replacing one task changes what is read off the tasks at its place. *)
Lemma omap_insert {B : Type} (f : Task -> option B) (ts : list Task) (i : nat) (t : Task) :
  ts !! i = Some t ->
  exists l1 l2, omap f ts = l1 ++ option_list (f t) ++ l2
                /\ forall t', omap f (<[i := t']> ts) = l1 ++ option_list (f t') ++ l2.
Proof.
  intros Hi. exists (omap f (take i ts)), (omap f (drop (S i) ts)). split.
  - rewrite <- (take_drop_middle ts i t Hi) at 1.
    rewrite !omap_app. simpl. f_equal. by destruct (f _).
  - intros t'. rewrite insert_take_drop by (by eapply lookup_lt_Some).
    rewrite !omap_app. simpl. f_equal. by destruct (f _).
Qed.

Lemma completion_calls (sync : bool) (completion : Completion) :
  let suffix : list Call :=
    match completion with
    | Completed => @nil Call
    | Error message => [if sync then Threw message else Rejected message]
    end in
  handedOut suffix = [] /\ releasedChains suffix = [] /\ createdChains suffix = []
  /\ addedListeners suffix = [] /\ removedListeners suffix = [].
Proof. by destruct completion, sync. Qed.

Ltac unfold_methods :=
  unfold onViewReady_resumed, onSurfaceCreated_resumed, updateRenderCallback_resumed,
    componentDidMount, componentDidUpdate, componentWillUnmount, onViewReady,
    onSurfaceDestroyed, pause, resume in *;
  unfold onSurfaceCreated, updateRenderCallback, updateTransparentRendering,
    then_cleanupResources in *;
  unfold cleanupResources, getContext, handle, done_, throw, debug, optionally,
    with_props, with_fields in *.

Ltac by_cases :=
  unfold_methods; simpl in *;
  repeat (first [case_match | case_bool_decide]; simpl in *; simplify_eq/=).

(** The methods called from outside and the one that resumes
    [updateRenderCallback] leave the swap chain alone or release it. *)
Lemma sync_keepsChain c (r : Reaction) :
  (r = componentDidMount c
   \/ (exists prev, r = componentDidUpdate prev c)
   \/ r = componentWillUnmount c
   \/ (exists nodeHandle, r = onViewReady nodeHandle c)
   \/ r = onSurfaceCreated c
   \/ r = onSurfaceDestroyed c
   \/ r = pause c
   \/ r = resume c
   \/ (exists token choreographer listener,
         r = updateRenderCallback_resumed token choreographer listener c)
   \/ (exists choreographer tag found refCurrent surface fresh,
         r = onViewReady_resumed choreographer tag found refCurrent surface fresh c)) ->
  keepsChain c r.
Proof.
  unfold keepsChain.
  intros [->|[[prev ->]|[->|[[nodeHandle ->]|[->|[->|[->|[->|[(?&?&?&->)|(?&?&?&?&?&?&->)]]]]]]]]];
    by_cases; unfold releasedChains, createdChains, bases; simpl;
    rewrite ?omap_app; simpl; auto.
Qed.

(** What a method is handed is new. *)
Lemma methods_allocate c (fresh : nat) (r : Reaction) :
  (r = componentDidMount c
   \/ (exists prev, r = componentDidUpdate prev c)
   \/ r = componentWillUnmount c
   \/ (exists nodeHandle, r = onViewReady nodeHandle c)
   \/ r = onSurfaceCreated c
   \/ r = onSurfaceDestroyed c
   \/ r = pause c
   \/ r = resume c
   \/ (exists token choreographer listener,
         r = updateRenderCallback_resumed token choreographer listener c)
   \/ (exists result, r = onSurfaceCreated_resumed result c)
   \/ (exists choreographer tag found refCurrent surface,
         r = onViewReady_resumed choreographer tag found refCurrent surface fresh c)) ->
  allocates fresh r.
Proof.
  unfold allocates.
  intros [->|[[prev ->]|[->|[[nodeHandle ->]|[->|[->|[->|[->|[(?&?&?&->)|[[? ->]|(?&?&?&?&?&->)]]]]]]]]]];
    by_cases; unfold handedOut; simpl; rewrite ?omap_app; simpl.
  all: split;
    [ repeat (apply NoDup_cons_2; [set_unfold; lia|]); apply NoDup_nil_2
    | intros y Hy; set_unfold; lia ].
Qed.

Lemma idsFresh_react sync r w w0 :
  idsFresh w0 -> calls w = calls w0 -> nextId w = nextId w0 ->
  allocates (nextId w0) r ->
  idsFresh (react sync r w).
Proof.
  intros [Hd Hk] Hc Hn [Hnd Hin].
  destruct (completion_calls sync (completion r)) as (Hs & _).
  split; simpl; rewrite Hc, ?Hn, !handedOut_app, Hs, app_nil_r.
  - apply NoDup_app. split; [done|]. split; [|done].
    intros x Hx Hx'. apply Hk in Hx. apply Hin in Hx'. lia.
  - intros x [Hx|Hx]%elem_of_app; [apply Hk in Hx|apply Hin in Hx]; lia.
Qed.

Lemma chainsKept_react sync r w w0 :
  chainsKept w0 -> this w = this w0 -> calls w = calls w0 ->
  returnedChains (tasks w) = returnedChains (tasks w0) ->
  keepsChain (this w0) r ->
  chainsKept (react sync r w).
Proof.
  intros [Hd Hc] Ht Hcalls Hret (Hsp & Hcr & Hmove).
  destruct (completion_calls sync (completion r)) as (_ & Hrel & Hcre & _).
  assert (Hheld : heldChains (react sync r w)
                  = option_list (swapChain (fields (after r))) ++ returnedChains (tasks w0)).
  { unfold heldChains. simpl. unfold returnedChains in *.
    by rewrite omap_app, Hret, Hsp, app_nil_r. }
  assert (Hreleased : releasedChains (calls (react sync r w))
                      = releasedChains (calls w0) ++ releasedChains (did r)).
  { simpl. by rewrite Hcalls, !releasedChains_app, Hrel, app_nil_r. }
  assert (Hcreated : createdChains (calls (react sync r w)) = createdChains (calls w0)).
  { simpl. by rewrite Hcalls, !createdChains_app, Hcre, Hcr, !app_nil_r. }
  unfold heldChains in Hd, Hc.
  split; rewrite Hheld, Hreleased, ?Hcreated.
  - destruct Hmove as [[Hs Hr]|[Hs Hr]]; rewrite Hs, Hr; [by rewrite app_nil_r|]. simpl.
    destruct (swapChain (fields (this w0))) as [sc|]; simpl in *; [|by rewrite app_nil_r].
    apply NoDup_cons in Hd as [Hnot Hd]. rewrite app_assoc. apply NoDup_app.
    split; [done|]. split; [|apply NoDup_singleton]. set_solver.
  - intros sc. destruct Hmove as [[Hs Hr]|[Hs Hr]]; rewrite Hs, Hr;
      [rewrite app_nil_r; apply Hc|]. intros Hsc. apply Hc. set_solver.
Qed.

Lemma start_idsFresh c : idsFresh (start c).
Proof. split; simpl; [apply NoDup_nil_2|]. intros x Hx. by apply elem_of_nil in Hx. Qed.

Lemma step_idsFresh e w : idsFresh w -> idsFresh (step e w).
Proof.
  intros Hw. destruct e; simpl.
  - apply (idsFresh_react _ _ w w); auto. apply (methods_allocate (this w)). auto.
  - apply (idsFresh_react _ _ w w); auto.
    apply (methods_allocate (with_props (this w) newProps)). eauto.
  - apply (idsFresh_react _ _ w w); auto. apply (methods_allocate (this w)). auto.
  - apply (idsFresh_react _ _ w w); auto. apply (methods_allocate (this w)). eauto 10.
  - apply (idsFresh_react _ _ w w); auto. apply (methods_allocate (this w)). auto 10.
  - apply (idsFresh_react _ _ w w); auto. apply (methods_allocate (this w)). auto 10.
  - apply (idsFresh_react _ _ w w); auto. apply (methods_allocate (this w)). auto 10.
  - apply (idsFresh_react _ _ w w); auto. apply (methods_allocate (this w)). auto 10.
  - destruct (tasks w !! task) as [[transparent| | | | |]|]; try done.
    destruct Hw as [Hd Hk]. unfold createSwapChain.
    destruct (negb (isSurfaceAlive (fields (this w)))); simpl.
    { split; simpl; rewrite ?app_nil_r, ?Nat.add_0_r; done. }
    destruct created; split; simpl; rewrite handedOut_app; simpl;
      rewrite ?app_nil_r, ?Nat.add_0_r; try done.
    + apply NoDup_app. split; [done|]. split; [|apply NoDup_singleton].
      intros x Hx Hx'. apply Hk in Hx. apply list_elem_of_singleton in Hx'. lia.
    + intros x [Hx|Hx]%elem_of_app; [apply Hk in Hx; lia|].
      apply list_elem_of_singleton in Hx. lia.
  - destruct (tasks w !! task) as [[|result| | | |]|]; try done.
    apply (idsFresh_react _ _ _ w); auto. apply (methods_allocate (this w)). eauto 15.
  - destruct (tasks w !! task) as [[| |token choreographer callback sc| | |]|]; try done.
    destruct Hw as [Hd Hk]. split; simpl; rewrite handedOut_app; simpl.
    + apply NoDup_app. split; [done|]. split; [|apply NoDup_singleton].
      intros x Hx Hx'. apply Hk in Hx. apply list_elem_of_singleton in Hx'. lia.
    + intros x [Hx|Hx]%elem_of_app; [apply Hk in Hx; lia|].
      apply list_elem_of_singleton in Hx. lia.
  - destruct (tasks w !! task) as [[| | |token choreographer listener| |]|]; try done.
    apply (idsFresh_react _ _ _ w); auto. apply (methods_allocate (this w)). eauto 15.
  - destruct (tasks w !! task) as [[| | | |choreographer tag|]|]; try done.
    apply (idsFresh_react _ _ _ w); auto. apply (methods_allocate (this w)). eauto 20.
Qed.

Lemma run_idsFresh events w : idsFresh w -> idsFresh (run events w).
Proof.
  revert w. induction events as [|e rest IH]; intros w Hw; simpl; [done|].
  by apply IH, step_idsFresh.
Qed.

Lemma returnedChains_insert (ts : list Task) (i : nat) (t : Task) :
  ts !! i = Some t ->
  exists l1 l2,
    returnedChains ts
    = l1 ++ option_list (match t with SwapChainReady (Some sc) => Some sc | _ => None end) ++ l2
    /\ forall t', returnedChains (<[i := t']> ts)
       = l1 ++ option_list (match t' with SwapChainReady (Some sc) => Some sc | _ => None end)
            ++ l2.
Proof. apply omap_insert. Qed.

Lemma start_chainsKept c : swapChain (fields c) = None -> chainsKept (start c).
Proof.
  intros Hc. split; unfold heldChains; simpl; rewrite Hc; simpl; [apply NoDup_nil_2|].
  intros x Hx. by apply elem_of_nil in Hx.
Qed.

Lemma step_chainsKept e w : idsFresh w -> chainsKept w -> chainsKept (step e w).
Proof.
  intros Hfresh Hw.
  assert (Hsettle : forall task t, tasks w !! task = Some t ->
            match t with SwapChainReady (Some _) => False | _ => True end ->
            returnedChains (tasks (settle task Settled w)) = returnedChains (tasks w)).
  { intros task t Ht Hno. simpl.
    destruct (returnedChains_insert (tasks w) task t Ht) as (l1 & l2 & -> & ->).
    by destruct t as [|[?|]| | | |]. }
  destruct e; simpl.
  - apply (chainsKept_react _ _ w w); auto. apply sync_keepsChain. auto.
  - apply (chainsKept_react _ _ w w); auto.
    apply (sync_keepsChain (with_props (this w) newProps)). eauto.
  - apply (chainsKept_react _ _ w w); auto. apply sync_keepsChain. auto.
  - apply (chainsKept_react _ _ w w); auto. apply sync_keepsChain. eauto 10.
  - apply (chainsKept_react _ _ w w); auto. apply sync_keepsChain. auto 10.
  - apply (chainsKept_react _ _ w w); auto. apply sync_keepsChain. auto 10.
  - apply (chainsKept_react _ _ w w); auto. apply sync_keepsChain. auto 10.
  - apply (chainsKept_react _ _ w w); auto. apply sync_keepsChain. auto 10.
  - (* the worklet creates a swap chain, or none *)
    destruct (tasks w !! task) as [[transparent| | | | |]|] eqn:Ht; try done.
    destruct Hw as [Hd Hc]. destruct Hfresh as [_ Hk]. unfold heldChains in *.
    destruct (returnedChains_insert (tasks w) task _ Ht) as (l1 & l2 & Hold & Hins).
    pose proof (Hins (SwapChainReady None)) as Hnone.
    pose proof (Hins (SwapChainReady (Some (nextId w)))) as Hsome.
    simpl in Hold, Hnone, Hsome. clear Hins.
    unfold createSwapChain.
    destruct (negb (isSurfaceAlive (fields (this w)))); simpl.
    { split; unfold heldChains; simpl; rewrite Hnone, <- Hold, app_nil_r; done. }
    destruct created; split; unfold heldChains; simpl;
      rewrite ?releasedChains_app, ?createdChains_app; simpl;
      unfold releasedChains; simpl; rewrite ?app_nil_r.
    + rewrite Hsome. rewrite Hold in Hd.
      assert (Hnew : nextId w ∉ (option_list (swapChain (fields (this w))) ++ l1 ++ l2)
                               ++ released (bases (calls w))).
      { intros Hin. rewrite <- Hold in Hin. apply Hc, createdChains_handedOut, Hk in Hin. lia. }
      assert (Hperm : (option_list (swapChain (fields (this w))) ++ l1 ++ nextId w :: l2)
                        ++ released (bases (calls w))
                      ≡ₚ nextId w :: (option_list (swapChain (fields (this w))) ++ l1 ++ l2)
                           ++ released (bases (calls w))) by solve_Permutation.
      rewrite Hperm. by apply NoDup_cons_2.
    + rewrite Hsome. intros sc Hsc.
      assert (Hperm : (option_list (swapChain (fields (this w))) ++ l1 ++ nextId w :: l2)
                        ++ released (bases (calls w))
                      ≡ₚ nextId w :: (option_list (swapChain (fields (this w))) ++ l1 ++ l2)
                           ++ released (bases (calls w))) by solve_Permutation.
      rewrite Hperm in Hsc. apply elem_of_cons in Hsc as [->|Hsc].
      * apply elem_of_app. right. apply list_elem_of_singleton. done.
      * apply elem_of_app. left. apply Hc. by rewrite Hold.
    + by rewrite Hnone, <- Hold.
    + by rewrite Hnone, <- Hold.
  - (* [onSurfaceCreated] goes on *)
    destruct (tasks w !! task) as [[|result| | | |]|] eqn:Ht; try done.
    destruct Hw as [Hd Hc]. unfold heldChains in *.
    destruct (returnedChains_insert (tasks w) task _ Ht) as (l1 & l2 & Hold & Hins).
    pose proof (Hins Settled) as Hnew. clear Hins.
    simpl in Hold, Hnew. rewrite Hold in Hd, Hc.
    destruct (completion_calls false
                (completion (onSurfaceCreated_resumed result (this w)))) as (_ & Hrel & Hcre & _).
    assert (Hfoot : returnedChains (spawned (onSurfaceCreated_resumed result (this w))) = []
                    /\ releasedChains (did (onSurfaceCreated_resumed result (this w))) = []
                    /\ createdChains (did (onSurfaceCreated_resumed result (this w))) = []
                    /\ swapChain (fields (after (onSurfaceCreated_resumed result (this w))))
                       = match result with
                         | Some sc => Some sc
                         | None => swapChain (fields (this w))
                         end).
    { by_cases; unfold releasedChains, createdChains, bases; simpl; rewrite ?omap_app; done. }
    destruct Hfoot as (Hsp & Hr & Hcr & Hsc).
    split; unfold heldChains; simpl; unfold returnedChains in *;
      rewrite omap_app, Hnew, Hsp, Hsc, !releasedChains_app, ?createdChains_app,
        Hr, Hrel, ?Hcr, ?Hcre, !app_nil_r.
    + destruct result as [sc|]; simpl in *; [|done].
      eapply NoDup_submseteq_mono; [|exact Hd]. solve_submseteq.
    + intros sc Hin. apply Hc. destruct result as [sc'|]; simpl in *; [|done].
      eapply elem_of_submseteq; [exact Hin|]. solve_submseteq.
  - (* the worklet adds the frame callback *)
    destruct (tasks w !! task) as [[| |token choreographer callback sc| | |]|] eqn:Ht; try done.
    destruct Hw as [Hd Hc]. unfold heldChains in *.
    destruct (returnedChains_insert (tasks w) task _ Ht) as (l1 & l2 & Hold & Hins).
    pose proof (Hins (ListenerReady token choreographer (nextId w))) as Hnew. clear Hins.
    simpl in Hold, Hnew.
    split; unfold heldChains; simpl; rewrite Hnew, <- Hold, releasedChains_app,
      ?createdChains_app; simpl; unfold releasedChains; simpl; rewrite ?app_nil_r; done.
  - destruct (tasks w !! task) as [[| | |token choreographer listener| |]|] eqn:Ht; try done.
    apply (chainsKept_react _ _ _ w); auto; [by eapply Hsettle|].
    apply sync_keepsChain. eauto 15.
  - destruct (tasks w !! task) as [[| | | |choreographer tag|]|] eqn:Ht; try done.
    apply (chainsKept_react _ _ _ w); auto; [by eapply Hsettle|].
    apply sync_keepsChain. eauto 20.
Qed.

Lemma run_chainsKept events w :
  idsFresh w -> chainsKept w -> chainsKept (run events w).
Proof.
  revert w. induction events as [|e rest IH]; intros w Hf Hw; simpl; [done|].
  apply IH; [by apply step_idsFresh|by apply step_chainsKept].
Qed.

(** X9. Whatever happens to a FilamentView, in whatever order (React
    mounting, updating and unmounting it, the surface coming and going,
    worklets running and [async] methods going on after their [await]), no
    swap chain is released twice, every swap chain released is one that was
    created for the component, and the swap chain in the component's field is
    one that has not been released. *)
Theorem swap_chain_released_once (context : option nat) (props : Props) (viewId : nat)
    (events : list Event) :
  let w := run events (start (Lifecycle.constructed context props viewId)) in
  NoDup (releasedChains (calls w))
  /\ (forall sc, sc ∈ releasedChains (calls w) -> sc ∈ createdChains (calls w))
  /\ (forall sc, swapChain (fields (this w)) = Some sc ->
                 (sc ∉ releasedChains (calls w)) /\ sc ∈ createdChains (calls w)).
Proof.
  intros w.
  assert (Hkept : chainsKept w).
  { apply run_chainsKept; [apply start_idsFresh|by apply start_chainsKept]. }
  destruct Hkept as [Hd Hc]. unfold heldChains in *.
  apply NoDup_app in Hd as (Hheld & Hdisjoint & Hreleased).
  split; [done|]. split.
  - intros sc Hsc. apply Hc. set_solver.
  - intros sc Hsc. rewrite Hsc in Hdisjoint, Hc. simpl in *. split.
    + apply Hdisjoint. set_solver.
    + apply Hc. set_solver.
Qed.

(** The methods other than the one that resumes [updateRenderCallback]
    leave the listener in the field alone. *)
Lemma methods_keepListener c (fresh : nat) (r : Reaction) :
  (r = componentDidMount c
   \/ (exists prev, r = componentDidUpdate prev c)
   \/ r = componentWillUnmount c
   \/ (exists nodeHandle, r = onViewReady nodeHandle c)
   \/ r = onSurfaceCreated c
   \/ r = onSurfaceDestroyed c
   \/ r = pause c
   \/ r = resume c
   \/ (exists result, r = onSurfaceCreated_resumed result c)
   \/ (exists choreographer tag found refCurrent surface,
         r = onViewReady_resumed choreographer tag found refCurrent surface fresh c)) ->
  keepsListener c r.
Proof.
  unfold keepsListener.
  intros [->|[[prev ->]|[->|[[nodeHandle ->]|[->|[->|[->|[->|[[? ->]|(?&?&?&?&?&->)]]]]]]]]];
    by_cases; unfold addedListeners, removedListeners; simpl; rewrite ?omap_app; simpl;
    repeat split; auto.
  all: right; right; repeat split; auto; intros l [= <-]; set_solver.
Qed.

Lemma listenersKept_react sync r w w0 :
  listenersKept w0 -> this w = this w0 -> calls w = calls w0 ->
  returnedListeners (tasks w) = returnedListeners (tasks w0) ->
  waitingTokens (tasks w) = waitingTokens (tasks w0) ->
  keepsListener (this w0) r ->
  listenersKept (react sync r w).
Proof.
  intros [Ha Hb Hd Hl] Ht Hcalls Hret Htok (Hadd & Hsp & Hstored & Htoken).
  destruct (completion_calls sync (completion r)) as (_ & _ & _ & Hsa & Hsr).
  assert (Hadded : addedListeners (calls (react sync r w)) = addedListeners (calls w0)).
  { simpl. by rewrite Hcalls, !addedListeners_app, Hadd, Hsa, !app_nil_r. }
  assert (Hremoved : removedListeners (calls (react sync r w))
                     = removedListeners (calls w0) ++ removedListeners (did r)).
  { simpl. by rewrite Hcalls, !removedListeners_app, Hsr, app_nil_r. }
  assert (Hreturned : returnedListeners (tasks (react sync r w)) = returnedListeners (tasks w0)).
  { simpl. unfold returnedListeners in *. by rewrite omap_app, Hret, Hsp, app_nil_r. }
  assert (Htokens : waitingTokens (tasks (react sync r w))
                    = waitingTokens (tasks w0) ++ waitingTokens (spawned r)).
  { simpl. unfold waitingTokens in *. by rewrite omap_app, Htok. }
  split; rewrite ?Hadded, ?Hremoved, ?Hreturned, ?Htokens; simpl; rewrite ?Hstored.
  - intros l Hin. destruct (Ha l Hin) as [?|[?|?]]; auto.
    left. apply elem_of_app. auto.
  - intros token [Hin|Hin]%elem_of_app.
    + apply Hb in Hin. destruct Htoken as [[-> _]|[[-> _]|[-> _]]]; lia.
    + destruct Htoken as [[_ Hs]|[[_ Hs]|(-> & Hs & _)]]; rewrite Hs in Hin;
        try (by apply elem_of_nil in Hin). apply list_elem_of_singleton in Hin. lia.
  - destruct Htoken as [[_ ->]|[[_ ->]|(_ & -> & _)]]; rewrite ?app_nil_r; try done.
    apply NoDup_app. split; [done|]. split; [|apply NoDup_singleton].
    intros token Hin Hin'. apply Hb in Hin. apply list_elem_of_singleton in Hin'. lia.
  - destruct Htoken as [[-> ->]|[[-> ->]|(-> & -> & Hrm)]]; rewrite ?app_nil_r.
    + intros Hin l Hs. apply elem_of_app. left. by apply Hl.
    + intros Hin. apply Hb in Hin. lia.
    + intros _ l Hs. apply elem_of_app. right. by apply Hrm.
Qed.

Lemma start_listenersKept context props viewId :
  listenersKept (start (Lifecycle.constructed context props viewId)).
Proof.
  split; simpl; try (intros x Hx; by apply elem_of_nil in Hx).
  - apply NoDup_nil_2.
  - intros Hx. by apply elem_of_nil in Hx.
Qed.

Lemma step_listenersKept e w : listenersKept w -> listenersKept (step e w).
Proof.
  intros Hw.
  assert (Hsettle : forall task t, tasks w !! task = Some t ->
            match t with AwaitListener _ _ _ _ | ListenerReady _ _ _ => False | _ => True end ->
            returnedListeners (tasks (settle task Settled w)) = returnedListeners (tasks w)
            /\ waitingTokens (tasks (settle task Settled w)) = waitingTokens (tasks w)).
  { intros task t Ht Hno. simpl.
    destruct (omap_insert (fun t => match t with ListenerReady _ _ l => Some l | _ => None end)
                (tasks w) task t Ht) as (l1 & l2 & Hold & Hnew).
    destruct (omap_insert (fun t => match t with
                                    | AwaitListener token _ _ _ | ListenerReady token _ _ =>
                                        Some token
                                    | _ => None
                                    end) (tasks w) task t Ht) as (k1 & k2 & Hold' & Hnew').
    unfold returnedListeners, waitingTokens. rewrite Hold, Hold', Hnew, Hnew'.
    by destruct t. }
  destruct e; simpl.
  - apply (listenersKept_react _ _ w w); auto. apply (methods_keepListener _ 0). auto.
  - apply (listenersKept_react _ _ w w); auto.
    apply (methods_keepListener (with_props (this w) newProps) 0). eauto.
  - apply (listenersKept_react _ _ w w); auto. apply (methods_keepListener _ 0). auto.
  - apply (listenersKept_react _ _ w w); auto. apply (methods_keepListener _ 0). eauto 10.
  - apply (listenersKept_react _ _ w w); auto. apply (methods_keepListener _ 0). auto 10.
  - apply (listenersKept_react _ _ w w); auto. apply (methods_keepListener _ 0). auto 10.
  - apply (listenersKept_react _ _ w w); auto. apply (methods_keepListener _ 0). auto 10.
  - apply (listenersKept_react _ _ w w); auto. apply (methods_keepListener _ 0). auto 10.
  - (* the worklet creates a swap chain, or none *)
    destruct (tasks w !! task) as [[transparent| | | | |]|] eqn:Ht; try done.
    assert (Hsame : forall t', match t' with SwapChainReady _ => True | _ => False end ->
              returnedListeners (<[task := t']> (tasks w)) = returnedListeners (tasks w)
              /\ waitingTokens (<[task := t']> (tasks w)) = waitingTokens (tasks w)).
    { intros t' Hkind.
      destruct (omap_insert (fun t => match t with ListenerReady _ _ l => Some l | _ => None end)
                  (tasks w) task _ Ht) as (l1 & l2 & Hold & Hnew).
      destruct (omap_insert (fun t => match t with
                                      | AwaitListener token _ _ _ | ListenerReady token _ _ =>
                                          Some token
                                      | _ => None
                                      end) (tasks w) task _ Ht) as (k1 & k2 & Hold' & Hnew').
      unfold returnedListeners, waitingTokens. rewrite Hold, Hold', Hnew, Hnew'.
      by destruct t'. }
    pose proof (Hsame (SwapChainReady None) I) as [Hr0 Ht0].
    pose proof (Hsame (SwapChainReady (Some (nextId w))) I) as [Hr1 Ht1].
    destruct Hw as [Ha Hb Hd Hl]. unfold createSwapChain.
    destruct (negb (isSurfaceAlive (fields (this w)))); [|destruct created]; simpl;
      (split; simpl; rewrite ?Hr0, ?Ht0, ?Hr1, ?Ht1, ?addedListeners_app, ?removedListeners_app;
       simpl; rewrite ?app_nil_r; done).
  - destruct (tasks w !! task) as [[|result| | | |]|] eqn:Ht; try done.
    destruct (Hsettle _ _ Ht I) as [Hr Htk].
    apply (listenersKept_react _ _ _ w); auto. apply (methods_keepListener _ 0). eauto 15.
  - (* the worklet adds the frame callback *)
    destruct (tasks w !! task) as [[| |token choreographer callback sc| | |]|] eqn:Ht; try done.
    destruct (omap_insert (fun t => match t with ListenerReady _ _ l => Some l | _ => None end)
                (tasks w) task _ Ht) as (l1 & l2 & Hold & Hnew).
    destruct (omap_insert (fun t => match t with
                                    | AwaitListener token _ _ _ | ListenerReady token _ _ =>
                                        Some token
                                    | _ => None
                                    end) (tasks w) task _ Ht) as (k1 & k2 & Hold' & Hnew').
    specialize (Hnew (ListenerReady token choreographer (nextId w))).
    specialize (Hnew' (ListenerReady token choreographer (nextId w))).
    simpl in Hold, Hnew, Hold', Hnew'.
    destruct Hw as [Ha Hb Hd Hl]. unfold returnedListeners, waitingTokens in *.
    split; simpl; unfold returnedListeners, waitingTokens, addFrameCallbackListener;
      rewrite ?Hnew, ?Hnew', ?addedListeners_app, ?removedListeners_app; simpl;
      rewrite ?app_nil_r, <- ?Hold'; try done.
    intros l [Hin|Hin]%elem_of_app.
    + destruct (Ha l Hin) as [?|[Hr|?]]; auto. right. left.
      rewrite Hold in Hr. set_solver.
    + apply list_elem_of_singleton in Hin as ->. right. left. set_solver.
  - (* [updateRenderCallback] goes on *)
    destruct (tasks w !! task) as [[| | |token choreographer listener| |]|] eqn:Ht; try done.
    destruct (omap_insert (fun t => match t with ListenerReady _ _ l => Some l | _ => None end)
                (tasks w) task _ Ht) as (l1 & l2 & Hold & Hnew).
    destruct (omap_insert (fun t => match t with
                                    | AwaitListener token _ _ _ | ListenerReady token _ _ =>
                                        Some token
                                    | _ => None
                                    end) (tasks w) task _ Ht) as (k1 & k2 & Hold' & Hnew').
    specialize (Hnew Settled). specialize (Hnew' Settled).
    simpl in Hold, Hnew, Hold', Hnew'.
    destruct Hw as [Ha Hb Hd Hl]. unfold returnedListeners, waitingTokens in *.
    rewrite Hold' in Hb, Hd, Hl. rewrite Hold in Ha.
    assert (Hgone : token ∉ k1 ++ k2).
    { intros Hin. revert Hd.
      assert (Hp : k1 ++ token :: k2 ≡ₚ token :: k1 ++ k2) by solve_Permutation.
      rewrite Hp. intros [Hnot _]%NoDup_cons. done. }
    assert (Hd' : NoDup (k1 ++ k2)).
    { eapply NoDup_submseteq_mono; [|exact Hd]. solve_submseteq. }
    unfold updateRenderCallback_resumed.
    destruct (negb (isComponentMounted (fields (this w))) || negb (isSurfaceAlive (fields (this w)))).
    { split; simpl; unfold returnedListeners, waitingTokens;
        rewrite ?app_nil_r, ?Hnew, ?Hnew', ?addedListeners_app, ?removedListeners_app; simpl;
        rewrite ?app_nil_r.
      - intros l Hin. destruct (Ha l Hin) as [?|[Hr|?]]; auto; [set_solver|].
        apply elem_of_app in Hr as [?|[->|?]%elem_of_cons]; set_solver.
      - intros t Hin. apply Hb. set_solver.
      - done.
      - intros Hin l Hs. apply elem_of_app. left. apply Hl; [set_solver|done]. }
    destruct (negb (token =? latestToken (this w))) eqn:Hlatest.
    { split; simpl; unfold returnedListeners, waitingTokens;
        rewrite ?app_nil_r, ?Hnew, ?Hnew', ?addedListeners_app, ?removedListeners_app; simpl;
        rewrite ?app_nil_r.
      - intros l Hin. destruct (Ha l Hin) as [?|[Hr|?]]; auto; [set_solver|].
        apply elem_of_app in Hr as [?|[->|?]%elem_of_cons]; set_solver.
      - intros t Hin. apply Hb. set_solver.
      - done.
      - intros Hin l Hs. apply elem_of_app. left. apply Hl; [set_solver|done]. }
    apply negb_false_iff, Nat.eqb_eq in Hlatest. subst token.
    split; simpl; unfold returnedListeners, waitingTokens;
      rewrite ?app_nil_r, ?Hnew, ?Hnew', ?addedListeners_app, ?removedListeners_app; simpl;
      rewrite ?app_nil_r.
    + intros l Hin. destruct (Ha l Hin) as [?|[Hr|Hs]]; auto.
      * apply elem_of_app in Hr as [?|[->|?]%elem_of_cons]; [set_solver|auto|set_solver].
      * left. apply Hl; [set_solver|done].
    + intros t Hin. apply Hb. set_solver.
    + done.
    + intros Hin. done.
  - destruct (tasks w !! task) as [[| | | |choreographer tag|]|] eqn:Ht; try done.
    destruct (Hsettle _ _ Ht I) as [Hr Htk].
    apply (listenersKept_react _ _ _ w); auto.
    apply (methods_keepListener _ (nextId w)). eauto 20.
Qed.

Lemma run_listenersKept events w : listenersKept w -> listenersKept (run events w).
Proof.
  revert w. induction events as [|e rest IH]; intros w Hw; simpl; [done|].
  by apply IH, step_listenersKept.
Qed.

(** X10. Whatever happens to a FilamentView, a listener of a frame
    callback that [updateRenderCallback] had added to the choreographer and
    that has not been removed is the one in [renderCallbackListener], or one
    the worklet has returned to a call that has not gone on after its
    [await]; so when no call is waiting with a listener, at most one listener
    is left on the choreographer. The listeners and swap chains handed to the
    component are all different objects. *)
Theorem one_listener_left (context : option nat) (props : Props) (viewId : nat)
    (events : list Event) :
  let w := run events (start (Lifecycle.constructed context props viewId)) in
  (forall l, l ∈ addedListeners (calls w) -> l ∉ removedListeners (calls w) ->
             renderCallbackListener (fields (this w)) = Some l
             \/ l ∈ returnedListeners (tasks w))
  /\ (returnedListeners (tasks w) = [] ->
      forall l l', l ∈ addedListeners (calls w) -> l ∉ removedListeners (calls w) ->
                   l' ∈ addedListeners (calls w) -> l' ∉ removedListeners (calls w) ->
                   l = l')
  /\ NoDup (handedOut (calls w)).
Proof.
  intros w.
  assert (Hkept : listenersKept w) by apply run_listenersKept, start_listenersKept.
  assert (Hfresh : idsFresh w) by apply run_idsFresh, start_idsFresh.
  assert (Hleft : forall l, l ∈ addedListeners (calls w) -> l ∉ removedListeners (calls w) ->
                    renderCallbackListener (fields (this w)) = Some l
                    \/ l ∈ returnedListeners (tasks w)).
  { intros l Hin Hnot. destruct (listeners_accounted w Hkept l Hin) as [?|[?|?]]; auto. done. }
  split; [exact Hleft|]. split; [|apply Hfresh].
  intros Hnone l l' Hl Hnl Hl' Hnl'.
  destruct (Hleft l Hl Hnl) as [Hs|Hr]; [|rewrite Hnone in Hr; by apply elem_of_nil in Hr].
  destruct (Hleft l' Hl' Hnl') as [Hs'|Hr]; [|rewrite Hnone in Hr; by apply elem_of_nil in Hr].
  congruence.
Qed.

(** Once the component is unmounted, what still runs sets nothing up. *)
Lemma step_unmounted e w :
  internal e = true ->
  isComponentMounted (fields (this w)) = false ->
  isComponentMounted (fields (this (step e w))) = false
  /\ renderCallbackListener (fields (this (step e w))) = renderCallbackListener (fields (this w))
  /\ surfaceCreatedListener (this (step e w)) = surfaceCreatedListener (this w)
  /\ surfaceDestroyedListener (this (step e w)) = surfaceDestroyedListener (this w)
  /\ exists later, calls (step e w) = calls w ++ later
                   /\ Forall (fun call => setsUp call = false) later.
Proof.
  intros He Hun.
  assert (Hidle : isComponentMounted (fields (this w)) = false
                  /\ renderCallbackListener (fields (this w)) = renderCallbackListener (fields (this w))
                  /\ surfaceCreatedListener (this w) = surfaceCreatedListener (this w)
                  /\ surfaceDestroyedListener (this w) = surfaceDestroyedListener (this w)
                  /\ exists later, calls w = calls w ++ later
                                   /\ Forall (fun call => setsUp call = false) later).
  { repeat split; auto. exists []. by rewrite app_nil_r. }
  destruct e; try done; simpl.
  - destruct (tasks w !! task) as [[transparent| | | | |]|]; try done.
    unfold createSwapChain.
    destruct (negb (isSurfaceAlive (fields (this w)))); [|destruct created]; simpl;
      repeat split; auto; eexists; (split; [reflexivity|]); repeat constructor.
  - destruct (tasks w !! task) as [[|result| | | |]|]; try done.
    unfold react, settle. simpl. by_cases; repeat split; auto; eexists;
      (split; [reflexivity|]); repeat constructor.
  - destruct (tasks w !! task) as [[| |token choreographer callback sc| | |]|]; try done.
    simpl. repeat split; auto. eexists. split; [reflexivity|]. repeat constructor.
  - destruct (tasks w !! task) as [[| | |token choreographer listener| |]|]; try done.
    unfold react, settle, updateRenderCallback_resumed. simpl. rewrite Hun. simpl.
    repeat split; auto. eexists. split; [reflexivity|]. repeat constructor.
  - destruct (tasks w !! task) as [[| | | |choreographer tag|]|]; try done.
    unfold react, settle, onViewReady_resumed. simpl.
    destruct found as [theView|]; simpl; rewrite ?Hun; simpl;
      repeat split; auto; eexists; (split; [reflexivity|]); repeat constructor.
Qed.

(** X11. After [componentWillUnmount], even one that threw for want of a
    context, nothing that is still to run (a worklet, or an [async] method
    going on after its [await]) sets rendering up again: the choreographer is
    not started, the view is not linked to a choreographer, no surface
    listener is added and no surface provider set, and the listeners in the
    component's fields are not replaced. *)
Theorem unmounted_stays_down (w : World) (events : list Event) :
  Forall (fun e => internal e = true) events ->
  let unmounted := step ComponentWillUnmount w in
  let w' := run events unmounted in
  isComponentMounted (fields (this w')) = false
  /\ renderCallbackListener (fields (this w')) = renderCallbackListener (fields (this w))
  /\ surfaceCreatedListener (this w') = surfaceCreatedListener (this w)
  /\ surfaceDestroyedListener (this w') = surfaceDestroyedListener (this w)
  /\ exists later, calls w' = calls unmounted ++ later
                   /\ Forall (fun call => setsUp call = false) later.
Proof.
  intros Hall unmounted.
  assert (Hstart : isComponentMounted (fields (this unmounted)) = false
                   /\ renderCallbackListener (fields (this unmounted))
                      = renderCallbackListener (fields (this w))
                   /\ surfaceCreatedListener (this unmounted) = surfaceCreatedListener (this w)
                   /\ surfaceDestroyedListener (this unmounted) = surfaceDestroyedListener (this w)).
  { unfold unmounted. simpl. by_cases; done. }
  destruct Hstart as (Hun & <- & <- & <-). clearbody unmounted. clear w.
  revert unmounted Hun. induction Hall as [|e rest He _ IH]; intros w Hun; simpl.
  - repeat split; auto. exists []. by rewrite app_nil_r.
  - destruct (step_unmounted e w He Hun) as (Hun' & Hl & Hc & Hd & later & Hcalls & Hquiet).
    destruct (IH (step e w) Hun') as (IH1 & IH2 & IH3 & IH4 & later' & Hcalls' & Hquiet').
    split; [done|]. split; [congruence|]. split; [congruence|]. split; [congruence|].
    exists (later ++ later'). split.
    + rewrite Hcalls', Hcalls. by rewrite app_assoc.
    + by apply Forall_app.
Qed.


Lemma clearContentCalls_app (l k : list Call) :
  clearContentCalls (l ++ k) = clearContentCalls l ++ clearContentCalls k.
Proof. apply omap_app. Qed.

(** The methods other than [componentDidMount] and [componentDidUpdate]
    keep the context and the props and tell the renderer nothing of
    transparent rendering. *)
Lemma methods_keepClearContent c (fresh : nat) (r : Reaction) :
  (r = componentWillUnmount c
   \/ (exists nodeHandle, r = onViewReady nodeHandle c)
   \/ r = onSurfaceCreated c
   \/ r = onSurfaceDestroyed c
   \/ r = pause c
   \/ r = resume c
   \/ (exists token choreographer listener,
         r = updateRenderCallback_resumed token choreographer listener c)
   \/ (exists result, r = onSurfaceCreated_resumed result c)
   \/ (exists choreographer tag found refCurrent surface,
         r = onViewReady_resumed choreographer tag found refCurrent surface fresh c)) ->
  keepsClearContent c r.
Proof.
  unfold keepsClearContent.
  intros [->|[[nodeHandle ->]|[->|[->|[->|[->|[(?&?&?&->)|[[? ->]|(?&?&?&?&?&->)]]]]]]]];
    by_cases; unfold clearContentCalls; simpl; rewrite ?omap_app; simpl; auto.
Qed.

(** [componentDidUpdate] tells the renderer exactly when the prop has
    changed. *)
Lemma componentDidUpdate_clearContent (prev : Props) c (choreographer : nat) :
  context (fields c) = Some choreographer ->
  let r := componentDidUpdate prev c in
  context (fields (after r)) = context (fields c)
  /\ props (after r) = props c
  /\ clearContentCalls
       (did r ++ match completion r with
                 | Completed => []
                 | Error message => [Threw message]
                 end)
     = if bool_decide (enableTransparentRendering prev <> enableTransparentRendering (props c))
       then [default true (enableTransparentRendering (props c))]
       else [].
Proof.
  intros Hctx. unfold componentDidUpdate, updateTransparentRendering, updateRenderCallback,
    getContext, done_, throw, debug, optionally. simpl. rewrite Hctx. simpl.
  destruct (bool_decide (enableTransparentRendering prev
                         <> enableTransparentRendering (props c))); simpl;
    destruct (swapChain (fields c)); simpl; try done;
    destruct (bool_decide (renderCallback prev <> renderCallback (props c))); simpl; try done;
    rewrite Hctx; simpl; destruct (renderCallbackListener (fields c)); done.
Qed.

Lemma transparencyTold_react sync r w w0 :
  transparencyTold w0 -> this w = this w0 -> calls w = calls w0 ->
  keepsClearContent (this w0) r ->
  transparencyTold (react sync r w)
  /\ context (fields (this (react sync r w))) = context (fields (this w0)).
Proof.
  intros Hw Ht Hcalls (Hctx & Hprops & Hclear). split; [|done].
  unfold transparencyTold in *. simpl. rewrite Hprops, Hcalls, !clearContentCalls_app, Hclear.
  assert (Hsuffix : clearContentCalls
            match completion r with
            | Completed => []
            | Error message => [if sync then Threw message else Rejected message]
            end = []) by by destruct (completion r), sync.
  by rewrite Hsuffix, !app_nil_r.
Qed.

Lemma step_transparencyTold e w (choreographer : nat) :
  isMount e = false ->
  context (fields (this w)) = Some choreographer ->
  transparencyTold w ->
  transparencyTold (step e w) /\ context (fields (this (step e w))) = Some choreographer.
Proof.
  intros He Hctx Hw. rewrite <- Hctx.
  destruct e; try done; simpl.
  - (* [componentDidUpdate] *)
    clear He. destruct Hw as [Hoff Hlast].
    pose proof (componentDidUpdate_clearContent (props (this w)) (with_props (this w) newProps)
                  choreographer Hctx) as (Hc & Hp & Hcalls).
    unfold transparencyTold, react. simpl in *. rewrite Hp, Hc.
    rewrite clearContentCalls_app, Hcalls. split; [|done].
    case_bool_decide as Hchanged; simpl.
    + rewrite last_snoc. split; [congruence|]. by intros told [= <-].
    + rewrite app_nil_r. rewrite <- Hchanged. by split.
  - apply (transparencyTold_react _ _ w w); auto. apply (methods_keepClearContent _ 0). auto.
  - apply (transparencyTold_react _ _ w w); auto. apply (methods_keepClearContent _ 0). eauto 10.
  - apply (transparencyTold_react _ _ w w); auto. apply (methods_keepClearContent _ 0). auto 10.
  - apply (transparencyTold_react _ _ w w); auto. apply (methods_keepClearContent _ 0). auto 10.
  - apply (transparencyTold_react _ _ w w); auto. apply (methods_keepClearContent _ 0). auto 10.
  - apply (transparencyTold_react _ _ w w); auto. apply (methods_keepClearContent _ 0). auto 10.
  - destruct (tasks w !! task) as [[transparent| | | | |]|]; try done.
    unfold createSwapChain, transparencyTold in *.
    destruct (negb (isSurfaceAlive (fields (this w)))); [|destruct created]; simpl;
      rewrite ?clearContentCalls_app; simpl; rewrite ?app_nil_r; done.
  - destruct (tasks w !! task) as [[|result| | | |]|]; try done.
    apply (transparencyTold_react _ _ _ w); auto.
    apply (methods_keepClearContent _ 0). eauto 15.
  - destruct (tasks w !! task) as [[| |token ch callback sc| | |]|]; try done.
    unfold transparencyTold in *. simpl.
    rewrite ?clearContentCalls_app; simpl; rewrite ?app_nil_r; done.
  - destruct (tasks w !! task) as [[| | |token ch listener| |]|]; try done.
    apply (transparencyTold_react _ _ _ w); auto.
    apply (methods_keepClearContent _ 0). eauto 15.
  - destruct (tasks w !! task) as [[| | | |ch tag|]|]; try done.
    apply (transparencyTold_react _ _ _ w); auto.
    apply (methods_keepClearContent _ (nextId w)). eauto 20.
Qed.

(** X13. A FilamentView in a FilamentProvider whose
    [enableTransparentRendering] is not undefined when it mounts (the default
    props see to that) keeps the renderer told: after [componentDidMount] and
    whatever happens then, if transparent rendering is now off the last call
    of [setClearContent] said so, and whenever there was a call the last one
    said how it is now, an undefined prop counting as on. *)
Theorem renderer_told_of_transparency (choreographer : nat) (transparent : bool)
    (callback viewId : nat) (events : list Event) :
  Forall (fun e => isMount e = false) events ->
  let mounted :=
    step ComponentDidMount
      (start (Lifecycle.constructed (Some choreographer)
                {| enableTransparentRendering := Some transparent;
                   renderCallback := callback |} viewId)) in
  let w := run events mounted in
  let current := default true (enableTransparentRendering (props (this w))) in
  (current = false -> last (clearContentCalls (calls w)) = Some false)
  /\ (forall told, last (clearContentCalls (calls w)) = Some told -> told = current).
Proof.
  intros Hall mounted.
  assert (Hstart : transparencyTold mounted
                   /\ context (fields (this mounted)) = Some choreographer).
  { unfold mounted, transparencyTold. destruct transparent; simpl;
      repeat split; intros; congruence. }
  clearbody mounted. revert mounted Hstart.
  induction Hall as [|e rest He _ IH]; intros w [Hw Hctx]; simpl; [exact Hw|].
  apply IH. by apply step_transparencyTold.
Qed.

End LifecycleProperties.

(** Its swap chain, 2, is released by [onSurfaceDestroyed] and not again by
    [componentWillUnmount]. *)
Lemma swap_chain_released_once_witness :
  let w := Lifecycle.run aLife (Lifecycle.start aView) in
  Lifecycle.releasedChains (Lifecycle.calls w) = [2]
  /\ Lifecycle.createdChains (Lifecycle.calls w) = [2]
  /\ NoDup (Lifecycle.releasedChains (Lifecycle.calls w)).
Proof.
  intros w. split; [reflexivity|]. split; [reflexivity|].
  exact (proj1 (swap_chain_released_once (Some 9)
                  {| Lifecycle.enableTransparentRendering := Some true;
                     Lifecycle.renderCallback := 100 |} 0 aLife)).
Defined.

(** Before the surface goes, the listener of the first callback, 3, has
    been removed and the one of the second, 4, is in the field. *)
Lemma one_listener_left_witness :
  let w := Lifecycle.run (take 10 aLife) (Lifecycle.start aView) in
  Lifecycle.addedListeners (Lifecycle.calls w) = [3; 4]
  /\ Lifecycle.removedListeners (Lifecycle.calls w) = [3]
  /\ (FilamentView.renderCallbackListener (Lifecycle.fields (Lifecycle.this w)) = Some 4
      \/ 4 ∈ Lifecycle.returnedListeners (Lifecycle.tasks w)).
Proof.
  intros w. split; [reflexivity|]. split; [reflexivity|].
  apply (proj1 (one_listener_left (Some 9)
                  {| Lifecycle.enableTransparentRendering := Some true;
                     Lifecycle.renderCallback := 100 |} 0 (take 10 aLife)) 4).
  - vm_compute. set_solver.
  - vm_compute. set_solver.
Defined.

(** Unmounted while the swap chain and the listener are on their way. *)
Lemma unmounted_stays_down_witness :
  let w := Lifecycle.run (take 4 aLife) (Lifecycle.start aView) in
  let w' := Lifecycle.run [Lifecycle.SurfaceCreatedResumes 1; Lifecycle.ListenerWorklet 2;
                           Lifecycle.RenderCallbackResumes 2]
              (Lifecycle.step Lifecycle.ComponentWillUnmount w) in
  FilamentView.isComponentMounted (Lifecycle.fields (Lifecycle.this w')) = false
  /\ FilamentView.renderCallbackListener (Lifecycle.fields (Lifecycle.this w')) = None.
Proof.
  intros w w'.
  destruct (unmounted_stays_down w
              [Lifecycle.SurfaceCreatedResumes 1; Lifecycle.ListenerWorklet 2;
               Lifecycle.RenderCallbackResumes 2]
              ltac:(repeat constructor)) as (Hm & Hl & _).
  split; [exact Hm|]. exact (eq_trans Hl eq_refl).
Defined.


(** Transparent rendering is turned off by the update: the renderer is
    told. *)
Lemma renderer_told_of_transparency_witness :
  let w := Lifecycle.run (tail aLife) (Lifecycle.step Lifecycle.ComponentDidMount
                                         (Lifecycle.start aView)) in
  last (Lifecycle.clearContentCalls (Lifecycle.calls w)) = Some false.
Proof.
  intros w.
  apply (renderer_told_of_transparency 9 true 100 0 (tail aLife)).
  - repeat constructor.
  - reflexivity.
Defined.
